(** * biometrics.py: SHA-256 tamper detection over a directory of images

    A shallow embedding of [src/biometrics.py].  The Python program reads
    image files, hashes them with [hashlib.sha256], flips one random byte,
    compares the digests, accumulates binary labels and computes
    precision / recall / F1 over them.

    - Python [bytes] are [list byte]; Python [int] is [Z]; [str] is [string].
    - [hashlib.sha256(data).hexdigest()] is the FIPS 180-4 algorithm, written
      out below on 32-bit words held in [Z].
    - The file system, the random generator and standard output are explicit:
      a read-only [filesystem] snapshot, and a [world] threaded through a
      state-and-exception monad. *)

From Stdlib Require Import ZArith NArith List Strings.String Strings.Ascii Strings.Byte QArith Lia Lqa.
From stdpp Require Import base list.

Import ListNotations.
Local Open Scope Z_scope.

(** ** Python [bytes] *)

Definition bytes := list byte.

Definition byte_to_Z (b : byte) : Z := Z.of_N (Byte.to_N b).

Definition byte_of_Z (z : Z) : byte :=
  match Byte.of_N (Z.to_N (z mod 256)) with
  | Some b => b
  | None => x00
  end.

(** ** hashlib.sha256 (FIPS 180-4) *)

Module SHA256.

Definition mask32 : Z := 0xffffffff.

Definition add32 (x y : Z) : Z := Z.land (x + y) mask32.

Definition rotr (n x : Z) : Z :=
  Z.lor (Z.shiftr x n) (Z.land (Z.shiftl x (32 - n)) mask32).

Definition shr (n x : Z) : Z := Z.shiftr x n.

Definition Ch (x y z : Z) : Z :=
  Z.lxor (Z.land x y) (Z.land (Z.lxor x mask32) z).

Definition Maj (x y z : Z) : Z :=
  Z.lxor (Z.lxor (Z.land x y) (Z.land x z)) (Z.land y z).

Definition Sigma0 (x : Z) : Z := Z.lxor (Z.lxor (rotr 2 x) (rotr 13 x)) (rotr 22 x).
Definition Sigma1 (x : Z) : Z := Z.lxor (Z.lxor (rotr 6 x) (rotr 11 x)) (rotr 25 x).
Definition sigma0 (x : Z) : Z := Z.lxor (Z.lxor (rotr 7 x) (rotr 18 x)) (shr 3 x).
Definition sigma1 (x : Z) : Z := Z.lxor (Z.lxor (rotr 17 x) (rotr 19 x)) (shr 10 x).

(** The constants of FIPS 180-4 are the first 32 bits of the fractional
    parts of roots of the first primes: cube roots of the first 64 for the
    round constants, square roots of the first 8 for the initial value. *)
Definition is_prime (n : Z) : bool :=
  (1 <? n)
  && forallb (fun d => negb (n mod d =? 0))
       (map Z.of_nat (seq 2 (Z.to_nat n - 2))).

Definition primes (count : nat) : list Z :=
  firstn count (List.filter is_prime (map Z.of_nat (seq 2 310))).

(** Integer cube root, one bit at a time from the top. *)
Fixpoint cbrt_bits (bits : nat) (n r : Z) : Z :=
  match bits with
  | O => r
  | S b =>
      let c := r + 2 ^ Z.of_nat b in
      cbrt_bits b n (if c * c * c <=? n then c else r)
  end.

Definition cbrt (n : Z) : Z :=
  cbrt_bits (Z.to_nat (Z.log2 n / 3 + 1)) n 0.

Definition frac32_sqrt (p : Z) : Z := Z.sqrt (p * 2 ^ 64) mod 2 ^ 32.

Definition frac32_cbrt (p : Z) : Z := cbrt (p * 2 ^ 96) mod 2 ^ 32.

Definition K : list Z := map frac32_cbrt (primes 64).

(** The eight working variables / the chaining value. *)
Record regs : Type := Regs {
  ra : Z; rb : Z; rc : Z; rd : Z; re : Z; rf : Z; rg : Z; rh : Z
}.

Definition H0 : regs :=
  match map frac32_sqrt (primes 8) with
  | [a; b; c; d; e; f; g; h] => Regs a b c d e f g h
  | _ => Regs 0 0 0 0 0 0 0 0
  end.

(** Padding: a 1 bit, zero bits up to 56 mod 64 bytes, the bit length on
    64 bits, big-endian. *)
Definition be_bytes (n : nat) (x : Z) : list Z :=
  map (fun i => Z.land (Z.shiftr x (8 * Z.of_nat i)) 0xff) (rev (seq 0 n)).

Definition pad (msg : list Z) : list Z :=
  let len := Z.of_nat (length msg) in
  msg ++ [0x80] ++ repeat 0 (Z.to_nat ((55 - len) mod 64))
      ++ be_bytes 8 ((8 * len) mod 2 ^ 64).

(** Big-endian 32-bit words of a byte list (a trailing partial word is
    dropped; padded messages have none). *)
Fixpoint words_of (l : list Z) : list Z :=
  match l with
  | b0 :: b1 :: b2 :: b3 :: rest =>
      Z.lor (Z.lor (Z.lor (Z.shiftl b0 24) (Z.shiftl b1 16)) (Z.shiftl b2 8)) b3
        :: words_of rest
  | _ => []
  end.

(** [blocks n l]: the first [n] 16-word blocks of [l]. *)
Fixpoint blocks (n : nat) (l : list Z) : list (list Z) :=
  match n with
  | O => []
  | S n' => firstn 16 l :: blocks n' (skipn 16 l)
  end.

(** Message schedule: [extend k w] appends [k] further words to [w]. *)
Fixpoint extend (k : nat) (w : list Z) : list Z :=
  match k with
  | O => w
  | S k' =>
      let t := length w in
      let wt := add32 (add32 (add32 (sigma1 (nth (t - 2) w 0)) (nth (t - 7) w 0))
                             (sigma0 (nth (t - 15) w 0)))
                      (nth (t - 16) w 0) in
      extend k' (w ++ [wt])
  end.

Definition schedule (block : list Z) : list Z := extend 48 block.

Definition round (s : regs) (kw : Z * Z) : regs :=
  let '(k, w) := kw in
  let t1 := add32 (add32 (add32 (add32 (rh s) (Sigma1 (re s))) (Ch (re s) (rf s) (rg s))) k) w in
  let t2 := add32 (Sigma0 (ra s)) (Maj (ra s) (rb s) (rc s)) in
  Regs (add32 t1 t2) (ra s) (rb s) (rc s) (add32 (rd s) t1) (re s) (rf s) (rg s).

Definition compress (h : regs) (block : list Z) : regs :=
  let s := fold_left round (combine K (schedule block)) h in
  Regs (add32 (ra h) (ra s)) (add32 (rb h) (rb s)) (add32 (rc h) (rc s))
       (add32 (rd h) (rd s)) (add32 (re h) (re s)) (add32 (rf h) (rf s))
       (add32 (rg h) (rg s)) (add32 (rh h) (rh s)).

(** The final chaining value of a message. *)
Definition hash_regs (data : bytes) : regs :=
  let p := pad (map byte_to_Z data) in
  fold_left compress (blocks (length p / 64)%nat (words_of p)) H0.

(** [digest()]: the 32 bytes of the chaining value, big-endian. *)
Definition regs_words (s : regs) : list Z :=
  [ra s; rb s; rc s; rd s; re s; rf s; rg s; rh s].

Definition digest_of_regs (s : regs) : bytes :=
  map byte_of_Z (flat_map (be_bytes 4) (regs_words s)).

Definition digest (data : bytes) : bytes := digest_of_regs (hash_regs data).

(** [hexdigest()]: two lowercase hexadecimal digits per byte. *)
Definition hexchar (n : N) : ascii :=
  match n with
  | 0 => "0" | 1 => "1" | 2 => "2" | 3 => "3" | 4 => "4" | 5 => "5"
  | 6 => "6" | 7 => "7" | 8 => "8" | 9 => "9" | 10 => "a" | 11 => "b"
  | 12 => "c" | 13 => "d" | 14 => "e" | _ => "f"
  end%N%char.

Fixpoint hex (bs : bytes) : string :=
  match bs with
  | [] => EmptyString
  | b :: rest =>
      String (hexchar (Byte.to_N b / 16)) (String (hexchar (Byte.to_N b mod 16)) (hex rest))
  end.

Definition hexdigest (data : bytes) : string := hex (digest data).

End SHA256.

(** ** SHA-256 as FIPS 180-4 states it

    The Secure Hash Standard, section by section, on byte messages: words
    are numbers below 2^32, indexed as in the standard ([W t], [K t],
    word [j] of block [i]); the message digest is [H P N], the hash value
    after the last of the [N] blocks of the padded message [P]. *)

Module FIPS180.

(** 2.2.2, 3.2: operations on words of [w] = 32 bits. *)
Definition w : Z := 32.

Definition plus (x y : Z) : Z := (x + y) mod 2 ^ w.

Definition complement (x : Z) : Z := 2 ^ w - 1 - x.

Definition shift_left (n x : Z) : Z := (x * 2 ^ n) mod 2 ^ w.

Definition shift_right (n x : Z) : Z := x / 2 ^ n.

Definition ROTR (n x : Z) : Z := Z.lor (shift_right n x) (shift_left (w - n) x).

Definition SHR (n x : Z) : Z := shift_right n x.

(** 4.1.2: the six logical functions. *)
Definition Ch (x y z : Z) : Z := Z.lxor (Z.land x y) (Z.land (complement x) z).

Definition Maj (x y z : Z) : Z :=
  Z.lxor (Z.lxor (Z.land x y) (Z.land x z)) (Z.land y z).

Definition Sigma_0 (x : Z) : Z := Z.lxor (Z.lxor (ROTR 2 x) (ROTR 13 x)) (ROTR 22 x).

Definition Sigma_1 (x : Z) : Z := Z.lxor (Z.lxor (ROTR 6 x) (ROTR 11 x)) (ROTR 25 x).

Definition sigma_0 (x : Z) : Z := Z.lxor (Z.lxor (ROTR 7 x) (ROTR 18 x)) (SHR 3 x).

Definition sigma_1 (x : Z) : Z := Z.lxor (Z.lxor (ROTR 17 x) (ROTR 19 x)) (SHR 10 x).

(** 4.2.2: the constant of round [t], from the cube root of the prime of
    rank [t]. *)
Definition K (t : nat) : Z := nth t SHA256.K 0.

(** 5.1.1: after the message of [l] bits come a 1 bit, [k] zero bits with
    [k] the least solution of l + 1 + k = 448 mod 512, and [l] on 64 bits.
    On bytes, the 1 bit and the first seven zero bits are the byte 128. *)
Fixpoint least_solution (fuel : nat) (holds : Z -> bool) (k : Z) : Z :=
  match fuel with
  | O => k
  | S n => if holds k then k else least_solution n holds (k + 1)
  end.

Definition zero_bits (l : Z) : Z :=
  least_solution 512 (fun k => (l + 1 + k) mod 512 =? 448) 0.

(** The [n] bytes of [x], most significant first. *)
Definition big_endian (n : nat) (x : Z) : list Z :=
  map (fun i => (x / 256 ^ Z.of_nat (n - 1 - i)) mod 256) (seq 0 n).

Definition padded (message : list Z) : list Z :=
  let l := 8 * Z.of_nat (length message) in
  message ++ [128] ++ repeat 0 (Z.to_nat ((zero_bits l - 7) / 8))
          ++ big_endian 8 (l mod 2 ^ 64).

(** 5.2.1: word [j] of block [i] of the padded message, both from 0. *)
Definition block_word (P : list Z) (i j : nat) : Z :=
  let o := (64 * i + 4 * j)%nat in
  nth o P 0 * 2 ^ 24 + nth (o + 1) P 0 * 2 ^ 16
  + nth (o + 2) P 0 * 2 ^ 8 + nth (o + 3) P 0.

(** 6.2.2, step 1: the message schedule.  [schedule_upto M n] lists
    W(n-1), ..., W(0). *)
Fixpoint schedule_upto (M : nat -> Z) (n : nat) : list Z :=
  match n with
  | O => []
  | S t =>
      let earlier := schedule_upto M t in
      (if (t <? 16)%nat then M t
       else plus (plus (plus (sigma_1 (nth 1 earlier 0)) (nth 6 earlier 0))
                       (sigma_0 (nth 14 earlier 0)))
                 (nth 15 earlier 0))
        :: earlier
  end.

Definition W (M : nat -> Z) (t : nat) : Z := nth t (rev (schedule_upto M 64)) 0.

(** 6.2.2, steps 2 and 3: the working variables a, ..., h. *)
Record vars : Type := Vars {
  a : Z; b : Z; c : Z; d : Z; e : Z; f : Z; g : Z; h : Z
}.

Definition step (v : vars) (Kt Wt : Z) : vars :=
  let T1 := plus (plus (plus (plus (h v) (Sigma_1 (e v))) (Ch (e v) (f v) (g v))) Kt) Wt in
  let T2 := plus (Sigma_0 (a v)) (Maj (a v) (b v) (c v)) in
  {| h := g v; g := f v; f := e v; e := plus (d v) T1;
     d := c v; c := b v; b := a v; a := plus T1 T2 |}.

(** The working variables after rounds 0, ..., t-1. *)
Fixpoint after_rounds (Wt : nat -> Z) (t : nat) (v : vars) : vars :=
  match t with
  | O => v
  | S t' => step (after_rounds Wt t' v) (K t') (Wt t')
  end.

(** 6.2.2, step 4: the next intermediate hash value. *)
Definition next_hash (previous : vars) (Wt : nat -> Z) : vars :=
  let v := after_rounds Wt 64 previous in
  {| a := plus (a v) (a previous); b := plus (b v) (b previous);
     c := plus (c v) (c previous); d := plus (d v) (d previous);
     e := plus (e v) (e previous); f := plus (f v) (f previous);
     g := plus (g v) (g previous); h := plus (h v) (h previous) |}.

(** 5.3.3: the initial hash value, from the square roots of the first
    eight primes. *)
Definition H_initial : vars :=
  match map SHA256.frac32_sqrt (SHA256.primes 8) with
  | [x0; x1; x2; x3; x4; x5; x6; x7] => Vars x0 x1 x2 x3 x4 x5 x6 x7
  | _ => Vars 0 0 0 0 0 0 0 0
  end.

(** The hash value after the first [i] blocks. *)
Fixpoint H (P : list Z) (i : nat) : vars :=
  match i with
  | O => H_initial
  | S i' => next_hash (H P i') (W (block_word P i'))
  end.

Definition SHA256 (message : list byte) : vars :=
  let P := padded (map byte_to_Z message) in
  H P (length P / 64).

(** The message digest: the eight words of the final hash value, each on
    four bytes, most significant first. *)
Definition digest (message : list byte) : list Z :=
  let v := SHA256 message in
  flat_map (big_endian 4) [a v; b v; c v; d v; e v; f v; g v; h v].

(** The digest in hexadecimal: two lowercase digits for each byte. *)
Definition hex_digit (x : Z) : ascii :=
  nth (Z.to_nat x) (list_ascii_of_string "0123456789abcdef") "0"%char.

Definition hexdigest (message : list byte) : string :=
  string_of_list_ascii
    (flat_map (fun x => [hex_digit (x / 16); hex_digit (x mod 16)]) (digest message)).

End FIPS180.

(** ** The environment: file system, random generator, standard output *)

(** What [open(path, 'rb').read()] does: the content, or one of the two
    exceptions [image_to_binary] catches ([IOError] is [OSError], the
    failures of the operating system).  An exception it does not catch,
    such as the [ValueError] of a path that holds a NUL character, is
    outside this type: the statements below are about reads that end in
    one of these three ways. *)
Inductive read_result : Type :=
  | ReadOk (data : bytes)
  | ReadFileNotFoundError
  | ReadIOError.

(** A snapshot of the file system, as the calls of the program see it.
    [listdir] is the listing of a directory that can be listed; the
    [OSError] of one that cannot, which line 62 does not catch, is outside
    this record. *)
Record filesystem : Type := {
  isdir : string -> bool;            (* os.path.isdir *)
  listdir : string -> list string;   (* os.listdir, of an existing directory *)
  open_rb : string -> read_result    (* open(path, 'rb') ... read() *)
}.

(** The generator behind [random]: an arbitrary sequence of raw draws and
    the position of the next one. *)
Record random_state : Type := {
  raw : nat -> Z;
  pos : nat
}.

Record world : Type := {
  rng : random_state;
  stdout : list string               (* the lines printed so far *)
}.

Inductive exn : Type :=
  | ValueError
  | IndexError.

Inductive outcome (A : Type) : Type :=
  | Ret (a : A)
  | Raise (e : exn).
Arguments Ret {A} a.
Arguments Raise {A} e.

Definition M (A : Type) : Type := world -> outcome A * world.

Definition ret {A : Type} (a : A) : M A := fun w => (Ret a, w).

Definition raise {A : Type} (e : exn) : M A := fun w => (Raise e, w).

Definition bind {A B : Type} (m : M A) (k : A -> M B) : M B :=
  fun w =>
    match m w with
    | (Ret a, w') => k a w'
    | (Raise e, w') => (Raise e, w')
    end.

Declare Scope py_scope.
Delimit Scope py_scope with py.
Notation "'let*' x ':=' m 'in' k" := (bind m (fun x => k))
  (at level 10, x pattern, m at level 100, k at level 200) : py_scope.
Notation "m ';;;' k" := (bind m (fun _ => k))
  (at level 100, k at level 200, right associativity) : py_scope.
Local Open Scope py_scope.

(** [print(msg)] *)
Definition print (msg : string) : M unit :=
  fun w => (Ret tt, {| rng := rng w; stdout := stdout w ++ [msg] |}).

(** [random.randint(a, b)]: an integer in [a..b], both ends included;
    [ValueError] on an empty range. *)
Definition randint (a b : Z) : M Z :=
  fun w =>
    if b <? a then (Raise ValueError, w)
    else
      (Ret (a + raw (rng w) (pos (rng w)) mod (b - a + 1)),
       {| rng := {| raw := raw (rng w); pos := S (pos (rng w)) |};
          stdout := stdout w |}).

(** [data[i] = v] on a [bytearray]: negative indices count from the end,
    [IndexError] out of range, [ValueError] unless [0 <= v < 256]. *)
Definition bytearray_setitem (data : bytes) (i v : Z) : M bytes :=
  let n := Z.of_nat (length data) in
  let j := if i <? 0 then i + n else i in
  if (j <? 0) || (n <=? j) then raise IndexError
  else if (v <? 0) || (256 <=? v) then raise ValueError
  else ret (<[Z.to_nat j := byte_of_Z v]> data).

(** ** Strings *)

Local Open Scope string_scope.

Definition lower_ascii (c : ascii) : ascii :=
  let n := nat_of_ascii c in
  if (65 <=? n)%nat && (n <=? 90)%nat then ascii_of_nat (n + 32) else c.

(** [str.lower()].  File names are taken as UTF-8; outside ASCII no
    character lowers to one of the letters of the four extensions, so the
    suffix test below reads the same on bytes. *)
Fixpoint lower (s : string) : string :=
  match s with
  | EmptyString => EmptyString
  | String c rest => String (lower_ascii c) (lower rest)
  end.

(** [s.endswith(suffix)] *)
Definition endswith (s suffix : string) : bool :=
  let n := String.length s in
  let m := String.length suffix in
  (m <=? n)%nat && String.eqb (substring (n - m) m s) suffix.

(** [s.endswith((x, y, ...))] *)
Definition endswith_any (s : string) (suffixes : list string) : bool :=
  existsb (endswith s) suffixes.

(** [os.path.join(a, p)] of posixpath. *)
Definition path_join (a p : string) : string :=
  if String.prefix "/" p then p
  else if String.eqb a EmptyString || endswith a "/" then a ++ p
  else a ++ "/" ++ p.

Local Close Scope string_scope.

(** ** sklearn.metrics, binary case *)

(** [precision_score], [recall_score] and [f1_score] with their defaults
    ([pos_label=1], [average='binary'], a zero denominator gives 0.0),
    in exact rationals. *)
Fixpoint count_pairs (t p : Z) (y_true y_pred : list Z) : Z :=
  match y_true, y_pred with
  | yt :: ts, yp :: ps =>
      (if (yt =? t) && (yp =? p) then 1 else 0) + count_pairs t p ts ps
  | _, _ => 0
  end.

Definition true_positives := count_pairs 1 1.
Definition false_positives := count_pairs 0 1.
Definition false_negatives := count_pairs 1 0.

Definition ratio (num den : Z) : Q :=
  if den =? 0 then 0%Q else Qred (num # Z.to_pos den).

Definition precision_score (y_true y_pred : list Z) : Q :=
  let tp := true_positives y_true y_pred in
  ratio tp (tp + false_positives y_true y_pred).

Definition recall_score (y_true y_pred : list Z) : Q :=
  let tp := true_positives y_true y_pred in
  ratio tp (tp + false_negatives y_true y_pred).

Definition f1_score (y_true y_pred : list Z) : Q :=
  let p := precision_score y_true y_pred in
  let r := recall_score y_true y_pred in
  if Qeq_bool (p + r) 0 then 0%Q else Qred ((2 * p * r) / (p + r)).

(** ** The program *)

(** Python's truth value of a sequence: [not xs] holds of the empty one. *)
Definition is_empty {A : Type} (xs : list A) : bool :=
  match xs with
  | [] => true
  | _ :: _ => false
  end.

Section Program.

Variable fs : filesystem.

Local Open Scope string_scope.

Definition image_to_binary (image_path : string) : M bytes :=
  match open_rb fs image_path with
  | ReadOk binary_data => ret binary_data
  | ReadFileNotFoundError =>
      print ("Error: The file " ++ image_path ++ " was not found.") ;;;
      ret []
  | ReadIOError =>
      print ("Error: An I/O error occurred while reading the file " ++ image_path ++ ".") ;;;
      ret []
  end.

Definition generate_sha256_hash (data : bytes) : string :=
  SHA256.hexdigest data.

Definition tamper_image (binary_data : bytes) : M bytes :=
  if is_empty binary_data then ret []
  else
    let tampered_data := binary_data in
    let* index_to_modify := randint 0 (Z.of_nat (length tampered_data) - 1) in
    let* new_value := randint 0 255 in
    let* tampered_data := bytearray_setitem tampered_data index_to_modify new_value in
    ret tampered_data.

(** The three [return] statements of [evaluate_binary_vs_sha256]. *)
Inductive exit_point : Type :=
  | ReturnReadEmpty      (* line 40: the read gave no bytes *)
  | ReturnTamperEmpty    (* line 46: the tamperer gave no bytes *)
  | ReturnLabels.        (* line 51 *)

(** [evaluate_binary_vs_sha256], with the [return] it leaves by. *)
Definition evaluate_binary_vs_sha256_at (image_path : string) (tampered : bool)
  : M (exit_point * (Z * Z)) :=
  let* binary_image := image_to_binary image_path in
  if is_empty binary_image then ret (ReturnReadEmpty, (0, 0))
  else
    let original_sha256_hash := generate_sha256_hash binary_image in
    let compare (binary_image : bytes) : M (exit_point * (Z * Z)) :=
      let predicted_label :=
        if String.eqb (generate_sha256_hash binary_image) original_sha256_hash
        then 1 else 0 in
      let true_label := if negb tampered then 1 else 0 in
      ret (ReturnLabels, (true_label, predicted_label)) in
    if tampered then
      let* binary_image := tamper_image binary_image in
      if is_empty binary_image then ret (ReturnTamperEmpty, (0, 0))
      else compare binary_image
    else compare binary_image.

Definition evaluate_binary_vs_sha256 (image_path : string) (tampered : bool)
  : M (Z * Z) :=
  let* r := evaluate_binary_vs_sha256_at image_path tampered in
  ret (snd r).

(** The two accumulators of [process_images_in_directory]. *)
Record labels : Type := {
  all_true_labels : list Z;
  all_predicted_labels : list Z
}.

Definition append_labels (acc : labels) (trial : Z * Z) : labels :=
  {| all_true_labels := all_true_labels acc ++ [fst trial];
     all_predicted_labels := all_predicted_labels acc ++ [snd trial] |}.

Definition image_extensions : list string := [".png"; ".jpg"; ".jpeg"; ".bmp"].

Definition is_image_name (filename : string) : bool :=
  endswith_any (lower filename) image_extensions.

(** The body of the [for] loop, lines 63 to 80. *)
Definition loop_body (directory : string) (acc : labels) (filename : string)
  : M labels :=
  if is_image_name filename then
    let image_path := path_join directory filename in
    print ("Processing original image: " ++ filename) ;;;
    let* trial := evaluate_binary_vs_sha256 image_path false in
    let acc := append_labels acc trial in
    print ("Processing tampered image: " ++ filename) ;;;
    let* trial := evaluate_binary_vs_sha256 image_path true in
    let acc := append_labels acc trial in
    ret acc
  else ret acc.

(** [for filename in names: ...] *)
Fixpoint for_each_filename (directory : string) (names : list string) (acc : labels)
  : M labels :=
  match names with
  | [] => ret acc
  | filename :: rest =>
      let* acc := loop_body directory acc filename in
      for_each_filename directory rest acc
  end.

Definition zero_metrics : Q * Q * Q := (0%Q, 0%Q, 0%Q).

(** [process_images_in_directory], returning with its result the two
    label lists as they are when it returns. *)
Definition process_images_in_directory_locals (directory : string)
  : M (labels * (Q * Q * Q)) :=
  let acc := {| all_true_labels := []; all_predicted_labels := [] |} in
  if negb (isdir fs directory) then
    print ("Error: The directory " ++ directory ++ " does not exist.") ;;;
    ret (acc, zero_metrics)
  else
    let* acc := for_each_filename directory (listdir fs directory) acc in
    if is_empty (all_true_labels acc) || is_empty (all_predicted_labels acc) then
      print "Error: No valid images processed." ;;;
      ret (acc, zero_metrics)
    else
      let precision := precision_score (all_true_labels acc) (all_predicted_labels acc) in
      let recall := recall_score (all_true_labels acc) (all_predicted_labels acc) in
      let f1 := f1_score (all_true_labels acc) (all_predicted_labels acc) in
      ret (acc, (precision, recall, f1)).

Definition process_images_in_directory (directory : string) : M (Q * Q * Q) :=
  let* r := process_images_in_directory_locals directory in
  ret (snd r).

End Program.

(** ** Vocabulary of the statements *)

(** The characters of a lowercase hexadecimal string. *)
Definition is_lower_hex (c : ascii) : bool :=
  existsb (Ascii.eqb c) (list_ascii_of_string "0123456789abcdef").

(** The 256-bit number a chaining value stands for. *)
Definition regs_number (s : SHA256.regs) : Z :=
  fold_left (fun acc x => acc * 2 ^ 32 + x) (SHA256.regs_words s) 0.

Definition is_word32 (x : Z) : Prop := 0 <= x < 2 ^ 32.

Definition regs_in_range (s : SHA256.regs) : Prop :=
  Forall is_word32 (SHA256.regs_words s).

(** What the two [randint] calls of [tamper_image] draw in world [w] for
    a sequence of [n] bytes. *)
Definition chosen_index (n : nat) (w : world) : nat :=
  Z.to_nat (raw (rng w) (pos (rng w)) mod Z.of_nat n).

Definition chosen_value (w : world) : Z :=
  raw (rng w) (S (pos (rng w))) mod 256.

(** The world after [k] draws. *)
Definition after_draws (k : nat) (w : world) : world :=
  {| rng := {| raw := raw (rng w); pos := (k + pos (rng w))%nat |};
     stdout := stdout w |}.

(** The world after further lines were printed. *)
Definition after_print (lines : list string) (w : world) : world :=
  {| rng := rng w; stdout := stdout w ++ lines |}.

(** A read that gives the evaluator bytes to hash. *)
Definition readable (fs : filesystem) (path : string) : bool :=
  match open_rb fs path with
  | ReadOk data => negb (is_empty data)
  | _ => false
  end.

(** What [image_to_binary] returns and prints for a path. *)
Definition read_bytes (fs : filesystem) (path : string) : bytes :=
  match open_rb fs path with
  | ReadOk data => data
  | _ => []
  end.

Definition read_diagnostics (fs : filesystem) (path : string) : list string :=
  match open_rb fs path with
  | ReadOk _ => []
  | ReadFileNotFoundError =>
      [String.append "Error: The file " (String.append path " was not found.")]
  | ReadIOError =>
      [String.append "Error: An I/O error occurred while reading the file "
         (String.append path ".")]
  end.

(** The bytes [tamper_image] returns for non-empty [data] in world [w]. *)
Definition tampered_bytes (data : bytes) (w : world) : bytes :=
  <[chosen_index (length data) w := byte_of_Z (chosen_value w)]> data.

(** The label pairs held by the two index-aligned lists. *)
Definition label_pairs (acc : labels) : list (Z * Z) :=
  combine (all_true_labels acc) (all_predicted_labels acc).

Definition no_labels : labels :=
  {| all_true_labels := []; all_predicted_labels := [] |}.

(** The predicted label of a tampered trial on a readable path. *)
Definition tampered_prediction (fs : filesystem) (path : string) (w : world) : Z :=
  if String.eqb (generate_sha256_hash (tampered_bytes (read_bytes fs path) w))
                (generate_sha256_hash (read_bytes fs path))
  then 1 else 0.

(** What one turn of the loop appends, prints and draws for a directory
    entry: nothing for a name that is no image name; otherwise the label
    pairs of the untampered and of the tampered trial. *)
Definition trial_pairs (fs : filesystem) (directory filename : string) (w : world)
  : list (Z * Z) :=
  let path := path_join directory filename in
  if negb (is_image_name filename) then []
  else if readable fs path then [(1, 1); (0, tampered_prediction fs path w)]
  else [(0, 0); (0, 0)].

Definition trial_lines (fs : filesystem) (directory filename : string) : list string :=
  let path := path_join directory filename in
  if negb (is_image_name filename) then []
  else
    [String.append "Processing original image: " filename]
      ++ read_diagnostics fs path
      ++ [String.append "Processing tampered image: " filename]
      ++ read_diagnostics fs path.

Definition trial_draws (fs : filesystem) (directory filename : string) : nat :=
  if is_image_name filename && readable fs (path_join directory filename)
  then 2%nat else 0%nat.

Definition trial_world (fs : filesystem) (directory filename : string) (w : world)
  : world :=
  after_draws (trial_draws fs directory filename)
    (after_print (trial_lines fs directory filename) w).

(** The same over a whole listing, in order. *)
Fixpoint batch_pairs (fs : filesystem) (directory : string) (names : list string)
  (w : world) : list (Z * Z) :=
  match names with
  | [] => []
  | filename :: rest =>
      trial_pairs fs directory filename w
        ++ batch_pairs fs directory rest (trial_world fs directory filename w)
  end.

Fixpoint batch_world (fs : filesystem) (directory : string) (names : list string)
  (w : world) : world :=
  match names with
  | [] => w
  | filename :: rest =>
      batch_world fs directory rest (trial_world fs directory filename w)
  end.

Definition batch_lines (fs : filesystem) (directory : string) (names : list string)
  : list string :=
  flat_map (trial_lines fs directory) names.

(** The number of entries of a listing that are image names. *)
Definition image_count (names : list string) : nat :=
  length (List.filter is_image_name names).

Definition no_images_message : string := "Error: No valid images processed.".

Definition no_directory_message (directory : string) : string :=
  String.append "Error: The directory " (String.append directory " does not exist.").

(** The lines the loop prints: progress lines and read diagnostics. *)
Definition is_loop_line (line : string) : bool :=
  String.prefix "Processing" line || String.prefix "Error: The file" line
  || String.prefix "Error: An I/O error" line.

(** ** Concrete inputs *)

Definition bytes_of_string (s : string) : bytes := list_byte_of_string s.

(** A generator whose raw draws are all [k]. *)
Definition constant_rng (k : Z) : random_state := {| raw := fun _ => k; pos := O |}.

(** A generator that draws [i], then [v], then zeros. *)
Definition two_draws_rng (i v : Z) : random_state :=
  {| raw := fun n => match n with O => i | S O => v | _ => 0 end; pos := O |}.

Definition world0 (k : Z) : world := {| rng := constant_rng k; stdout := [] |}.

(** Directory [d] holds [a.png] with content [ABCD]. *)
Definition fs_one_image : filesystem := {|
  isdir := fun p => String.eqb p "d";
  listdir := fun p => if String.eqb p "d" then ["a.png"%string] else [];
  open_rb := fun p =>
    if String.eqb p "d/a.png" then ReadOk (bytes_of_string "ABCD")
    else ReadFileNotFoundError
|}.

(** Directory [d] lists [a.png] and [notes.txt]; [a.png] cannot be read. *)
Definition fs_unreadable : filesystem := {|
  isdir := fun p => String.eqb p "d";
  listdir := fun p =>
    if String.eqb p "d" then ["a.png"%string; "notes.txt"%string] else [];
  open_rb := fun p => ReadIOError
|}.

(** Directory [d] exists and is empty. *)
Definition fs_empty_dir : filesystem := {|
  isdir := fun p => String.eqb p "d";
  listdir := fun p => [];
  open_rb := fun p => ReadFileNotFoundError
|}.

(** ** The entry point *)

Section Main.

(** [str(x)] of a float, as an f-string renders it; the metrics are held
    as rationals here, so their rendering is left open. *)
Variable float_str : Q -> string.

Definition newline : string := String (ascii_of_nat 10) EmptyString.

Definition main (fs : filesystem) : M unit :=
  let images_directory := "fingerprintDatasets"%string in
  let* r := process_images_in_directory fs images_directory in
  let precision := fst (fst r) in
  let recall := snd (fst r) in
  let f1 := snd r in
  if negb (Qeq_bool precision 0) || negb (Qeq_bool recall 0) || negb (Qeq_bool f1 0)
  then
    print (String.append newline
             (String.append "Average Precision: " (float_str precision))) ;;;
    print (String.append "Average Recall: " (float_str recall)) ;;;
    print (String.append "Average F1-Score: " (float_str f1))
  else ret tt.

End Main.

(** ** Further vocabulary *)

(** The entries of a listing whose two trials hash bytes. *)
Definition is_readable_image (fs : filesystem) (directory filename : string) : bool :=
  is_image_name filename && readable fs (path_join directory filename).

Definition readable_count (fs : filesystem) (directory : string)
  (names : list string) : nat :=
  length (List.filter (is_readable_image fs directory) names).

(** The ground-truth labels of a listing: 1 then 0 for an image whose read
    gives bytes, 0 twice for any other image name. *)
Definition listing_true_labels (fs : filesystem) (directory : string)
  (names : list string) : list Z :=
  flat_map (fun f =>
              if is_image_name f
              then if readable fs (path_join directory f) then [1; 0] else [0; 0]
              else [])
           names.

(** The value of a lowercase hexadecimal digit. *)
Definition unhexchar (c : ascii) : N :=
  let n := N_of_ascii c in
  (if n <? 58 then n - 48 else n - 87)%N.

(** [bytes.fromhex] on the output of [hex]. *)
Fixpoint unhex (s : string) : bytes :=
  match s with
  | String hi (String lo rest) =>
      byte_of_Z (Z.of_N (16 * unhexchar hi + unhexchar lo)) :: unhex rest
  | _ => []
  end.

Definition in_unit_interval (q : Q) : Prop := (0 <= q /\ q <= 1)%Q.

(** The directory the entry point reads, holding a readable image with an
    upper-case extension, an image that cannot be opened, an empty image
    and a file that is no image. *)
Definition fs_datasets : filesystem := {|
  isdir := fun p => String.eqb p "fingerprintDatasets";
  listdir := fun p =>
    if String.eqb p "fingerprintDatasets"
    then ["A.PNG"%string; "b.jpeg"%string; "empty.bmp"%string; "readme.md"%string]
    else [];
  open_rb := fun p =>
    if String.eqb p "fingerprintDatasets/A.PNG" then ReadOk (bytes_of_string "ABCD")
    else if String.eqb p "fingerprintDatasets/b.jpeg" then ReadIOError
    else if String.eqb p "fingerprintDatasets/empty.bmp" then ReadOk []
    else ReadFileNotFoundError
|}.

(** Directory [d] holds the zero-byte image [a.png]. *)
Definition fs_empty_image : filesystem := {|
  isdir := fun p => String.eqb p "d";
  listdir := fun p => if String.eqb p "d" then ["a.png"%string] else [];
  open_rb := fun p =>
    if String.eqb p "d/a.png" then ReadOk [] else ReadFileNotFoundError
|}.

Definition plain_float_str (q : Q) : string := "?".

(** The working variables a chaining value stands for. *)
Definition vars_of_regs (s : SHA256.regs) : FIPS180.vars :=
  FIPS180.Vars (SHA256.ra s) (SHA256.rb s) (SHA256.rc s) (SHA256.rd s)
               (SHA256.re s) (SHA256.rf s) (SHA256.rg s) (SHA256.rh s).

Definition is_byte_value (x : Z) : Prop := 0 <= x < 256.

(** The [n] low bytes of a number, least significant first, and the number
    a byte sequence stands for that way. *)
Fixpoint number_bytes (n : nat) (k : Z) : bytes :=
  match n with
  | O => []
  | S n' => byte_of_Z (k mod 256) :: number_bytes n' (k / 256)
  end.

Fixpoint bytes_number (l : bytes) : Z :=
  match l with
  | [] => 0
  | x :: rest => byte_to_Z x + 256 * bytes_number rest
  end.

(** * Properties *)

(** ** The Hasher *)

Example sha256_empty :
  generate_sha256_hash []
  = "e3b0c44298fc1c149afbf4c8996fb92427ae41e4649b934ca495991b7852b855"%string.
Proof. vm_compute. reflexivity. Qed.

Example sha256_abc :
  generate_sha256_hash (bytes_of_string "abc")
  = "ba7816bf8f01cfea414140de5dae2223b00361a396177a9cb410ff61f20015ad"%string.
Proof. vm_compute. reflexivity. Qed.

Example sha256_two_blocks :
  generate_sha256_hash
    (bytes_of_string "abcdbcdecdefdefgefghfghighijhijkijkljklmklmnlmnomnopnopq")
  = "248d6a61d20638b8e5c026930c3e6039a33ce45964ff2167f6ecedd419db06c1"%string.
Proof. vm_compute. reflexivity. Qed.

Lemma digest_of_regs_length (s : SHA256.regs) :
  length (SHA256.digest_of_regs s) = 32%nat.
Proof. reflexivity. Qed.

Lemma hex_length (bs : bytes) :
  String.length (SHA256.hex bs) = (2 * length bs)%nat.
Proof.
  induction bs as [|b bs IH]; [reflexivity|].
  cbn [SHA256.hex String.length length]. rewrite IH. lia.
Qed.

Lemma hex_byte_lower (b : byte) :
  is_lower_hex (SHA256.hexchar (Byte.to_N b / 16)) = true
  /\ is_lower_hex (SHA256.hexchar (Byte.to_N b mod 16)) = true.
Proof. destruct b; split; reflexivity. Qed.

Lemma hex_lower (bs : bytes) :
  forallb is_lower_hex (list_ascii_of_string (SHA256.hex bs)) = true.
Proof.
  induction bs as [|b bs IH]; [reflexivity|].
  destruct (hex_byte_lower b) as [Hhi Hlo].
  cbn [SHA256.hex list_ascii_of_string forallb].
  rewrite Hhi, Hlo, IH. reflexivity.
Qed.

(** *** The digest ranges over 2^256 values *)

Lemma add32_word (x y : Z) : is_word32 (SHA256.add32 x y).
Proof.
  unfold is_word32, SHA256.add32.
  change SHA256.mask32 with (Z.ones 32).
  rewrite Z.land_ones by lia.
  apply Z.mod_pos_bound. lia.
Qed.

Example H0_first_word : SHA256.ra SHA256.H0 = 0x6a09e667.
Proof. vm_compute. reflexivity. Qed.

Example K_first_last :
  hd 0 SHA256.K = 0x428a2f98 /\ List.last SHA256.K 0 = 0xc67178f2
  /\ length SHA256.K = 64%nat.
Proof. vm_compute. repeat split. Qed.

Lemma H0_in_range : regs_in_range SHA256.H0.
Proof.
  let v := eval vm_compute in SHA256.H0 in
  assert (Hv : SHA256.H0 = v) by (vm_compute; reflexivity).
  rewrite Hv.
  unfold regs_in_range, SHA256.regs_words.
  cbn [SHA256.regs_words SHA256.ra SHA256.rb SHA256.rc SHA256.rd
       SHA256.re SHA256.rf SHA256.rg SHA256.rh].
  repeat (apply Forall_cons_2; [unfold is_word32; lia|]).
  apply Forall_nil_2.
Qed.

Lemma compress_in_range (h : SHA256.regs) (block : list Z) :
  regs_in_range (SHA256.compress h block).
Proof.
  unfold regs_in_range, SHA256.compress, SHA256.regs_words.
  cbn [SHA256.regs_words SHA256.ra SHA256.rb SHA256.rc SHA256.rd
       SHA256.re SHA256.rf SHA256.rg SHA256.rh].
  repeat (apply Forall_cons_2; [apply add32_word|]).
  apply Forall_nil_2.
Qed.

Lemma fold_compress_in_range (bs : list (list Z)) :
  forall h, regs_in_range h -> regs_in_range (fold_left SHA256.compress bs h).
Proof.
  induction bs as [|b bs IH]; intros h Hh; cbn [fold_left]; [exact Hh|].
  apply IH, compress_in_range.
Qed.

Lemma hash_regs_in_range (data : bytes) : regs_in_range (SHA256.hash_regs data).
Proof. apply fold_compress_in_range, H0_in_range. Qed.

Lemma horner_step_inj (x y x' y' : Z) :
  is_word32 y -> is_word32 y' ->
  x * 2 ^ 32 + y = x' * 2 ^ 32 + y' -> x = x' /\ y = y'.
Proof.
  unfold is_word32. change (2 ^ 32) with 4294967296. lia.
Qed.

Lemma regs_number_inj (s s' : SHA256.regs) :
  regs_in_range s -> regs_in_range s' ->
  regs_number s = regs_number s' -> s = s'.
Proof.
  destruct s as [a b c d e f g h], s' as [a' b' c' d' e' f' g' h'].
  unfold regs_in_range, regs_number, SHA256.regs_words.
  cbn [SHA256.regs_words fold_left SHA256.ra SHA256.rb SHA256.rc SHA256.rd
       SHA256.re SHA256.rf SHA256.rg SHA256.rh].
  intros Hs Hs' Heq.
  repeat match goal with
         | H : Forall _ (_ :: _) |- _ => inversion H; subst; clear H
         end.
  repeat match goal with
         | H : _ * 2 ^ 32 + _ = _ * 2 ^ 32 + _ |- _ =>
             apply horner_step_inj in H; [destruct H as [H ?]|assumption|assumption]
         end.
  subst. reflexivity.
Qed.

Lemma regs_number_bound (s : SHA256.regs) :
  regs_in_range s -> 0 <= regs_number s < 2 ^ 256.
Proof.
  destruct s as [a b c d e f g h].
  unfold regs_in_range, regs_number, SHA256.regs_words.
  cbn [SHA256.regs_words fold_left SHA256.ra SHA256.rb SHA256.rc SHA256.rd
       SHA256.re SHA256.rf SHA256.rg SHA256.rh].
  intros Hs.
  repeat match goal with
         | H : Forall _ (_ :: _) |- _ => inversion H; subst; clear H
         end.
  unfold is_word32 in *.
  change (2 ^ 32) with 4294967296 in *.
  change (2 ^ 256) with
    (4294967296 * 4294967296 * 4294967296 * 4294967296
     * 4294967296 * 4294967296 * 4294967296 * 4294967296).
  lia.
Qed.

(** Equal chaining values print as equal digests. *)
Lemma hash_of_regs (data : bytes) :
  generate_sha256_hash data
  = SHA256.hex (SHA256.digest_of_regs (SHA256.hash_regs data)).
Proof. reflexivity. Qed.

(** *** Pigeonhole over an initial segment of [N] *)

Lemma find_preimage (f : N -> Z) (v : Z) (m : N) :
  (exists x, (x < m)%N /\ f x = v) \/ (forall x, (x < m)%N -> f x <> v).
Proof.
  induction m as [|m IH] using N.peano_ind.
  - right. intros x Hx. lia.
  - destruct IH as [[x [Hx Hfx]]|Hnone].
    + left. exists x. split; [lia|exact Hfx].
    + destruct (Z.eq_dec (f m) v) as [Hm|Hm].
      * left. exists m. split; [lia|exact Hm].
      * right. intros x Hx.
        destruct (N.eq_dec x m) as [->|Hne]; [exact Hm|].
        apply Hnone. lia.
Qed.

Lemma pigeonhole_N (n : N) :
  forall f : N -> Z,
    (forall x, (x <= n)%N -> 0 <= f x < Z.of_N n) ->
    exists x y, (x < y)%N /\ (y <= n)%N /\ f x = f y.
Proof.
  induction n as [|n IH] using N.peano_ind; intros f Hf.
  - specialize (Hf 0%N). lia.
  - destruct (find_preimage f (f (N.succ n)) (N.succ n)) as [[x [Hx Hfx]]|Hfresh].
    + exists x, (N.succ n). split; [exact Hx|]. split; [lia|exact Hfx].
    + pose (g := fun x => if f x =? Z.of_N n then f (N.succ n) else f x).
      destruct (IH g) as [x [y [Hxy [Hy Hg]]]].
      * intros x Hx. unfold g.
        assert (Hlast := Hf (N.succ n)). assert (Hfx := Hf x).
        assert (Hne := Hfresh x).
        destruct (Z.eqb_spec (f x) (Z.of_N n)); lia.
      * exists x, y. split; [exact Hxy|]. split; [lia|].
        assert (Hnx := Hfresh x). assert (Hny := Hfresh y).
        unfold g in Hg.
        destruct (Z.eqb_spec (f x) (Z.of_N n)), (Z.eqb_spec (f y) (Z.of_N n));
          lia.
Qed.

(** ** The monad and the world *)

Lemma bind_ret {A B : Type} (m : M A) (k : A -> M B) (w w' : world) (a : A) :
  m w = (Ret a, w') -> bind m k w = k a w'.
Proof. intros H. unfold bind. rewrite H. reflexivity. Qed.

Lemma after_print_nil (w : world) : after_print [] w = w.
Proof. destruct w as [r out]. unfold after_print. cbn. rewrite app_nil_r. reflexivity. Qed.

Lemma print_spec (msg : string) (w : world) :
  print msg w = (Ret tt, after_print [msg] w).
Proof. reflexivity. Qed.

Lemma randint_in_range (a b : Z) (w : world) :
  a <= b ->
  randint a b w
  = (Ret (a + raw (rng w) (pos (rng w)) mod (b - a + 1)), after_draws 1 w).
Proof.
  intros Hab. unfold randint.
  destruct (Z.ltb_spec b a); [lia|]. reflexivity.
Qed.

Lemma randint_empty_range (a b : Z) (w : world) :
  b < a -> randint a b w = (Raise ValueError, w).
Proof.
  intros Hab. unfold randint.
  destruct (Z.ltb_spec b a); [reflexivity|lia].
Qed.

Lemma bytearray_setitem_in_range (data : bytes) (i v : Z) (w : world) :
  0 <= i < Z.of_nat (length data) -> 0 <= v < 256 ->
  bytearray_setitem data i v w = (Ret (<[Z.to_nat i := byte_of_Z v]> data), w).
Proof.
  intros Hi Hv. unfold bytearray_setitem.
  destruct (Z.ltb_spec i 0); [lia|].
  destruct (Z.ltb_spec i 0); [lia|].
  destruct (Z.leb_spec (Z.of_nat (length data)) i); [lia|].
  destruct (Z.ltb_spec v 0); [lia|].
  destruct (Z.leb_spec 256 v); [lia|].
  reflexivity.
Qed.

Lemma byte_of_Z_value (v : Z) : 0 <= v < 256 -> byte_to_Z (byte_of_Z v) = v.
Proof.
  intros Hv. unfold byte_of_Z, byte_to_Z.
  rewrite Z.mod_small by lia.
  destruct (Byte.of_N (Z.to_N v)) as [b|] eqn:Hb.
  - apply Byte.to_of_N in Hb. rewrite Hb. lia.
  - apply Byte.of_N_None_iff in Hb. lia.
Qed.

Lemma is_empty_false {A : Type} (xs : list A) : xs <> [] -> is_empty xs = false.
Proof. destruct xs; [congruence|reflexivity]. Qed.

Lemma is_empty_length {A : Type} (xs : list A) :
  is_empty xs = false <-> (0 < length xs)%nat.
Proof. destruct xs; cbn; split; intros; try lia; congruence. Qed.

(** ** The Tamperer *)

Lemma chosen_index_lt (n : nat) (w : world) :
  (0 < n)%nat -> (chosen_index n w < n)%nat.
Proof.
  intros Hn. unfold chosen_index.
  pose proof (Z.mod_pos_bound (raw (rng w) (pos (rng w))) (Z.of_nat n)).
  lia.
Qed.

Lemma chosen_value_byte (w : world) : 0 <= chosen_value w < 256.
Proof. unfold chosen_value. apply Z.mod_pos_bound. lia. Qed.

Lemma tamper_image_nonempty (b : bytes) (w : world) :
  b <> [] ->
  tamper_image b w = (Ret (tampered_bytes b w), after_draws 2 w).
Proof.
  intros Hb. unfold tamper_image. rewrite (is_empty_false b Hb).
  assert (Hn : (0 < length b)%nat) by (apply is_empty_length, is_empty_false, Hb).
  pose proof (Z.mod_pos_bound (raw (rng w) (pos (rng w))) (Z.of_nat (length b))
                ltac:(lia)) as Hi.
  pose proof (chosen_value_byte w) as Hv.
  rewrite (bind_ret _ _ _ _ _ (randint_in_range 0 (Z.of_nat (length b) - 1) w ltac:(lia))).
  rewrite (bind_ret _ _ _ _ _ (randint_in_range 0 255 (after_draws 1 w) ltac:(lia))).
  replace (Z.of_nat (length b) - 1 - 0 + 1) with (Z.of_nat (length b)) by lia.
  change (255 - 0 + 1) with 256.
  change (raw (rng (after_draws 1 w)) (pos (rng (after_draws 1 w))) mod 256)
    with (chosen_value w).
  rewrite !Z.add_0_l.
  rewrite (bind_ret _ _ _ _ _
             (bytearray_setitem_in_range b _ _ (after_draws 1 (after_draws 1 w)) Hi Hv)).
  reflexivity.
Qed.

Lemma tampered_bytes_length (b : bytes) (w : world) :
  length (tampered_bytes b w) = length b.
Proof. unfold tampered_bytes. apply length_insert. Qed.

(** Every index and every byte value is the outcome of some draws. *)
Lemma tamper_image_any_outcome (b : bytes) (i : nat) (v : Z) :
  (i < length b)%nat -> 0 <= v < 256 ->
  exists w : world,
    chosen_index (length b) w = i /\ chosen_value w = v
    /\ fst (tamper_image b w) = Ret (<[i := byte_of_Z v]> b).
Proof.
  intros Hi Hv.
  exists {| rng := two_draws_rng (Z.of_nat i) v; stdout := [] |}.
  assert (Hidx : chosen_index (length b)
                   {| rng := two_draws_rng (Z.of_nat i) v; stdout := [] |} = i).
  { unfold chosen_index. cbn. rewrite Z.mod_small by lia. lia. }
  assert (Hval : chosen_value {| rng := two_draws_rng (Z.of_nat i) v; stdout := [] |} = v).
  { unfold chosen_value. cbn. apply Z.mod_small. lia. }
  split; [exact Hidx|]. split; [exact Hval|].
  rewrite tamper_image_nonempty by (destruct b; cbn in Hi; [lia|congruence]).
  unfold tampered_bytes. rewrite Hidx, Hval. reflexivity.
Qed.

(** C4: on a non-empty byte sequence, whatever the generator draws, the
    Tamperer returns a sequence of the same length that agrees with its
    input everywhere but at the drawn index, which holds the drawn value,
    a byte value in 0..255; on the empty sequence it returns the empty
    sequence and draws nothing. *)
Theorem C4_tamper_image :
  forall (b : bytes) (w : world),
    (b <> [] ->
     exists (i : nat) (v : Z) (b' : bytes),
       tamper_image b w = (Ret b', after_draws 2 w)
       /\ i = chosen_index (length b) w /\ (i < length b)%nat
       /\ v = chosen_value w /\ 0 <= v < 256
       /\ length b' = length b
       /\ (exists x, b' !! i = Some x /\ byte_to_Z x = v)
       /\ (forall j : nat, j <> i -> b' !! j = b !! j))
    /\ (b = [] -> tamper_image b w = (Ret [], w)).
Proof.
  intros b w. split.
  - intros Hb.
    assert (Hn : (0 < length b)%nat) by (apply is_empty_length, is_empty_false, Hb).
    exists (chosen_index (length b) w), (chosen_value w), (tampered_bytes b w).
    split; [apply tamper_image_nonempty, Hb|].
    split; [reflexivity|].
    split; [apply chosen_index_lt, Hn|].
    split; [reflexivity|].
    split; [apply chosen_value_byte|].
    split; [apply tampered_bytes_length|].
    split.
    + exists (byte_of_Z (chosen_value w)). split.
      * unfold tampered_bytes. apply list_lookup_insert_eq, chosen_index_lt, Hn.
      * apply byte_of_Z_value, chosen_value_byte.
    + intros j Hj. unfold tampered_bytes.
      apply list_lookup_insert_ne. congruence.
  - intros ->. reflexivity.
Qed.

(** ** The File Reader and the Evaluator *)

Lemma image_to_binary_spec (fs : filesystem) (path : string) (w : world) :
  image_to_binary fs path w
  = (Ret (read_bytes fs path), after_print (read_diagnostics fs path) w).
Proof.
  unfold image_to_binary, read_bytes, read_diagnostics.
  destruct (open_rb fs path); [|reflexivity|reflexivity].
  rewrite after_print_nil. reflexivity.
Qed.

Lemma readable_read_bytes (fs : filesystem) (path : string) :
  readable fs path = negb (is_empty (read_bytes fs path)).
Proof. unfold readable, read_bytes. destruct (open_rb fs path); reflexivity. Qed.

Lemma readable_no_diagnostics (fs : filesystem) (path : string) :
  readable fs path = true -> read_diagnostics fs path = [].
Proof.
  unfold readable, read_diagnostics.
  destruct (open_rb fs path); [reflexivity|discriminate|discriminate].
Qed.

(** The three ways through the Evaluator. *)
Lemma evaluate_at_unreadable (fs : filesystem) (path : string) (tampered : bool) (w : world) :
  readable fs path = false ->
  evaluate_binary_vs_sha256_at fs path tampered w
  = (Ret (ReturnReadEmpty, (0, 0)), after_print (read_diagnostics fs path) w).
Proof.
  intros Hr. rewrite readable_read_bytes in Hr.
  unfold evaluate_binary_vs_sha256_at.
  rewrite (bind_ret _ _ _ _ _ (image_to_binary_spec fs path w)).
  destruct (is_empty (read_bytes fs path)); [reflexivity|discriminate].
Qed.

Lemma evaluate_at_untampered (fs : filesystem) (path : string) (w : world) :
  readable fs path = true ->
  evaluate_binary_vs_sha256_at fs path false w = (Ret (ReturnLabels, (1, 1)), w).
Proof.
  intros Hr. pose proof (readable_no_diagnostics fs path Hr) as Hd.
  rewrite readable_read_bytes in Hr.
  unfold evaluate_binary_vs_sha256_at.
  rewrite (bind_ret _ _ _ _ _ (image_to_binary_spec fs path w)).
  rewrite Hd, after_print_nil.
  destruct (is_empty (read_bytes fs path)); [discriminate|].
  cbn [negb]. rewrite String.eqb_refl. reflexivity.
Qed.

Lemma evaluate_at_tampered (fs : filesystem) (path : string) (w : world) :
  readable fs path = true ->
  evaluate_binary_vs_sha256_at fs path true w
  = (Ret (ReturnLabels,
          (0, if String.eqb (generate_sha256_hash (tampered_bytes (read_bytes fs path) w))
                            (generate_sha256_hash (read_bytes fs path))
              then 1 else 0)),
     after_draws 2 w).
Proof.
  intros Hr. pose proof (readable_no_diagnostics fs path Hr) as Hd.
  rewrite readable_read_bytes in Hr.
  unfold evaluate_binary_vs_sha256_at.
  rewrite (bind_ret _ _ _ _ _ (image_to_binary_spec fs path w)).
  rewrite Hd, after_print_nil.
  destruct (is_empty (read_bytes fs path)) eqn:He; [discriminate|].
  assert (Hne : read_bytes fs path <> []) by (intros H; rewrite H in He; discriminate).
  rewrite (bind_ret _ _ _ _ _ (tamper_image_nonempty _ w Hne)).
  assert (Ht : is_empty (tampered_bytes (read_bytes fs path) w) = false).
  { apply is_empty_length. rewrite tampered_bytes_length.
    apply is_empty_length, He. }
  rewrite Ht. reflexivity.
Qed.

Lemma evaluate_of_at (fs : filesystem) (path : string) (tampered : bool)
      (w w' : world) (r : exit_point * (Z * Z)) :
  evaluate_binary_vs_sha256_at fs path tampered w = (Ret r, w') ->
  evaluate_binary_vs_sha256 fs path tampered w = (Ret (snd r), w').
Proof.
  intros H. unfold evaluate_binary_vs_sha256.
  rewrite (bind_ret _ _ _ _ _ H). reflexivity.
Qed.

(** C2: when the read of the image path gives non-empty bytes, the
    Evaluator with tamper=false returns the label pair (1,1) and leaves
    the world as it was; in general, on such a path, the ground-truth label
    is 1 exactly when the tamper flag is false and the predicted label is 1
    exactly when the digest of the bytes hashed second equals the original
    digest. *)
Theorem C2_evaluator_untampered :
  forall (fs : filesystem) (image_path : string) (data : bytes) (w : world),
    open_rb fs image_path = ReadOk data -> data <> [] ->
    evaluate_binary_vs_sha256 fs image_path false w = (Ret (1, 1), w)
    /\ forall tampered : bool,
         exists (second : bytes) (t p : Z) (w' : world),
           evaluate_binary_vs_sha256 fs image_path tampered w = (Ret (t, p), w')
           /\ second = (if tampered then tampered_bytes data w else data)
           /\ (t = 1 <-> tampered = false) /\ (t = 0 \/ t = 1)
           /\ (p = 1 <-> generate_sha256_hash second = generate_sha256_hash data)
           /\ (p = 0 \/ p = 1).
Proof.
  intros fs path data w Hopen Hdata.
  assert (Hr : readable fs path = true).
  { unfold readable. rewrite Hopen, (is_empty_false data Hdata). reflexivity. }
  assert (Hb : read_bytes fs path = data) by (unfold read_bytes; rewrite Hopen; reflexivity).
  split.
  - apply (evaluate_of_at _ _ _ _ _ _ (evaluate_at_untampered fs path w Hr)).
  - intros [|].
    + eexists _, _, _, _. split.
      * apply (evaluate_of_at _ _ _ _ _ _ (evaluate_at_tampered fs path w Hr)).
      * cbn [snd]. rewrite Hb.
        split; [reflexivity|].
        split; [split; intros; [lia|discriminate]|].
        split; [left; reflexivity|].
        destruct (String.eqb_spec (generate_sha256_hash (tampered_bytes data w))
                                  (generate_sha256_hash data)) as [He|He].
        -- split; [split; intros; [exact He|reflexivity]|right; reflexivity].
        -- split; [split; intros; [lia|contradiction]|left; reflexivity].
    + exists data, 1, 1, w. split.
      * apply (evaluate_of_at _ _ _ _ _ _ (evaluate_at_untampered fs path w Hr)).
      * split; [reflexivity|].
        split; [split; reflexivity|].
        split; [right; reflexivity|].
        split; [split; reflexivity|right; reflexivity].
Qed.

Lemma C2_evaluator_untampered_witness :
  evaluate_binary_vs_sha256 fs_one_image "d/a.png" false (world0 7)
  = (Ret (1, 1), world0 7).
Proof.
  apply (C2_evaluator_untampered fs_one_image "d/a.png"
           (bytes_of_string "ABCD") (world0 7)).
  - reflexivity.
  - discriminate.
Defined.

(** C8: the Evaluator never leaves by the return that follows an empty
    result of the Tamperer.  It leaves by the first return when the read
    gave no bytes, without calling the Tamperer (no draw is made), and by
    the last return otherwise; and on a non-empty input the Tamperer
    returns a non-empty sequence. *)
Theorem C8_tamper_empty_return_unreachable :
  forall (fs : filesystem) (image_path : string) (tampered : bool) (w : world),
    (exists (e : exit_point) (lbl : Z * Z) (w' : world),
       evaluate_binary_vs_sha256_at fs image_path tampered w = (Ret (e, lbl), w')
       /\ e <> ReturnTamperEmpty
       /\ (e = ReturnReadEmpty <-> read_bytes fs image_path = [])
       /\ (e = ReturnReadEmpty -> rng w' = rng w))
    /\ (forall b : bytes, b <> [] ->
          exists b' : bytes,
            tamper_image b w = (Ret b', after_draws 2 w) /\ b' <> []).
Proof.
  intros fs path tampered w. split.
  - destruct (readable fs path) eqn:Hr.
    + assert (Hne : read_bytes fs path <> []).
      { rewrite readable_read_bytes in Hr. intros H. rewrite H in Hr. discriminate. }
      destruct tampered.
      * eexists _, _, _. split; [apply (evaluate_at_tampered fs path w Hr)|].
        split; [discriminate|]. split; [split; [discriminate|contradiction]|discriminate].
      * eexists _, _, _. split; [apply (evaluate_at_untampered fs path w Hr)|].
        split; [discriminate|]. split; [split; [discriminate|contradiction]|discriminate].
    + eexists _, _, _. split; [apply (evaluate_at_unreadable fs path tampered w Hr)|].
      split; [discriminate|]. split; [|reflexivity].
      split; [|reflexivity]. intros _.
      rewrite readable_read_bytes in Hr.
      destruct (read_bytes fs path); [reflexivity|discriminate].
  - intros b Hb. exists (tampered_bytes b w).
    split; [apply tamper_image_nonempty, Hb|].
    intros H. apply (f_equal (@length byte)) in H.
    rewrite tampered_bytes_length in H.
    destruct b; [congruence|discriminate].
Qed.

(** ** The Batch Runner *)

Lemma world_eq (w w' : world) :
  raw (rng w) = raw (rng w') -> pos (rng w) = pos (rng w') ->
  stdout w = stdout w' -> w = w'.
Proof.
  destruct w as [[r p] o], w' as [[r' p'] o']. cbn.
  intros -> -> ->. reflexivity.
Qed.

Lemma loop_body_step (fs : filesystem) (directory filename : string)
      (acc : labels) (w : world) :
  loop_body fs directory acc filename w
  = (Ret (fold_left append_labels (trial_pairs fs directory filename w) acc),
     trial_world fs directory filename w).
Proof.
  unfold loop_body, trial_pairs, trial_world, trial_lines, trial_draws.
  destruct (is_image_name filename); cbn [negb andb].
  - rewrite (bind_ret _ _ _ _ _ (print_spec _ w)).
    destruct (readable fs (path_join directory filename)) eqn:Hr.
    + rewrite (bind_ret _ _ _ _ _
                 (evaluate_of_at _ _ _ _ _ _ (evaluate_at_untampered fs _ _ Hr))).
      rewrite (bind_ret _ _ _ _ _ (print_spec _ _)).
      rewrite (bind_ret _ _ _ _ _
                 (evaluate_of_at _ _ _ _ _ _ (evaluate_at_tampered fs _ _ Hr))).
      unfold ret. f_equal.
      apply world_eq; cbn; [reflexivity|reflexivity|].
      rewrite (readable_no_diagnostics fs _ Hr). cbn.
      rewrite <- app_assoc. reflexivity.
    + rewrite (bind_ret _ _ _ _ _
                 (evaluate_of_at _ _ _ _ _ _ (evaluate_at_unreadable fs _ false _ Hr))).
      rewrite (bind_ret _ _ _ _ _ (print_spec _ _)).
      rewrite (bind_ret _ _ _ _ _
                 (evaluate_of_at _ _ _ _ _ _ (evaluate_at_unreadable fs _ true _ Hr))).
      unfold ret. f_equal.
      apply world_eq; cbn; [reflexivity|reflexivity|].
      rewrite <- !app_assoc. reflexivity.
  - unfold ret. f_equal.
    apply world_eq; cbn; [reflexivity|reflexivity|].
    rewrite app_nil_r. reflexivity.
Qed.

Lemma for_each_filename_spec (fs : filesystem) (directory : string)
      (names : list string) :
  forall (acc : labels) (w : world),
    for_each_filename fs directory names acc w
    = (Ret (fold_left append_labels (batch_pairs fs directory names w) acc),
       batch_world fs directory names w).
Proof.
  induction names as [|f rest IH]; intros acc w; [reflexivity|].
  cbn [for_each_filename batch_pairs batch_world].
  rewrite (bind_ret _ _ _ _ _ (loop_body_step fs directory f acc w)).
  rewrite IH, fold_left_app. reflexivity.
Qed.

(** The accumulators after appending a list of label pairs. *)
Lemma fold_append_true (pairs : list (Z * Z)) :
  forall acc,
    all_true_labels (fold_left append_labels pairs acc)
    = all_true_labels acc ++ map fst pairs.
Proof.
  induction pairs as [|p pairs IH]; intros acc; cbn [fold_left map].
  - rewrite app_nil_r. reflexivity.
  - rewrite IH. cbn [append_labels all_true_labels].
    rewrite <- app_assoc. reflexivity.
Qed.

Lemma fold_append_predicted (pairs : list (Z * Z)) :
  forall acc,
    all_predicted_labels (fold_left append_labels pairs acc)
    = all_predicted_labels acc ++ map snd pairs.
Proof.
  induction pairs as [|p pairs IH]; intros acc; cbn [fold_left map].
  - rewrite app_nil_r. reflexivity.
  - rewrite IH. cbn [append_labels all_predicted_labels].
    rewrite <- app_assoc. reflexivity.
Qed.

Lemma combine_fst_snd {A B : Type} (pairs : list (A * B)) :
  combine (map fst pairs) (map snd pairs) = pairs.
Proof.
  induction pairs as [|[a b] pairs IH]; [reflexivity|].
  cbn [map combine fst snd]. rewrite IH. reflexivity.
Qed.

Lemma label_pairs_from_empty (pairs : list (Z * Z)) :
  label_pairs (fold_left append_labels pairs no_labels) = pairs.
Proof.
  unfold label_pairs. rewrite fold_append_true, fold_append_predicted.
  cbn [no_labels all_true_labels all_predicted_labels app].
  apply combine_fst_snd.
Qed.

(** Two pairs per image name, none otherwise. *)
Lemma trial_pairs_length (fs : filesystem) (directory filename : string) (w : world) :
  length (trial_pairs fs directory filename w)
  = if is_image_name filename then 2%nat else 0%nat.
Proof.
  unfold trial_pairs.
  destruct (is_image_name filename); [|reflexivity].
  cbn [negb]. destruct (readable fs (path_join directory filename)); reflexivity.
Qed.

Lemma batch_pairs_length (fs : filesystem) (directory : string) (names : list string) :
  forall w, length (batch_pairs fs directory names w) = (2 * image_count names)%nat.
Proof.
  unfold image_count.
  induction names as [|f rest IH]; intros w; [reflexivity|].
  cbn [batch_pairs List.filter]. rewrite length_app, trial_pairs_length, IH.
  destruct (is_image_name f); cbn [length]; lia.
Qed.

(** No pair has ground truth 1 and prediction 0. *)
Lemma trial_pairs_no_false_negative (fs : filesystem) (directory filename : string)
      (w : world) :
  Forall (fun tp => tp <> (1, 0)) (trial_pairs fs directory filename w).
Proof.
  unfold trial_pairs.
  destruct (is_image_name filename); cbn [negb]; [|apply Forall_nil_2].
  destruct (readable fs (path_join directory filename));
    repeat (apply Forall_cons_2; [intros H; inversion H|]); apply Forall_nil_2.
Qed.

Lemma batch_pairs_no_false_negative (fs : filesystem) (directory : string)
      (names : list string) :
  forall w, Forall (fun tp => tp <> (1, 0)) (batch_pairs fs directory names w).
Proof.
  induction names as [|f rest IH]; intros w; [apply Forall_nil_2|].
  cbn [batch_pairs]. apply Forall_app_2; [apply trial_pairs_no_false_negative|apply IH].
Qed.

(** What the loop prints. *)
Lemma batch_world_stdout (fs : filesystem) (directory : string) (names : list string) :
  forall w,
    stdout (batch_world fs directory names w)
    = stdout w ++ batch_lines fs directory names.
Proof.
  unfold batch_lines.
  induction names as [|f rest IH]; intros w; cbn [batch_world flat_map].
  - rewrite app_nil_r. reflexivity.
  - rewrite IH. unfold trial_world. cbn [after_draws after_print stdout].
    rewrite <- app_assoc. reflexivity.
Qed.

Lemma read_diagnostics_loop_lines (fs : filesystem) (path : string) :
  Forall (fun l => is_loop_line l = true) (read_diagnostics fs path).
Proof.
  unfold read_diagnostics.
  destruct (open_rb fs path); [apply Forall_nil_2| |];
    (apply Forall_cons_2; [vm_compute; reflexivity|apply Forall_nil_2]).
Qed.

Lemma trial_lines_loop_lines (fs : filesystem) (directory filename : string) :
  Forall (fun l => is_loop_line l = true) (trial_lines fs directory filename).
Proof.
  unfold trial_lines.
  destruct (is_image_name filename); cbn [negb]; [|apply Forall_nil_2].
  repeat apply Forall_app_2;
    try apply read_diagnostics_loop_lines;
    (apply Forall_cons_2; [vm_compute; reflexivity|apply Forall_nil_2]).
Qed.

Lemma batch_lines_loop_lines (fs : filesystem) (directory : string)
      (names : list string) :
  Forall (fun l => is_loop_line l = true) (batch_lines fs directory names).
Proof.
  unfold batch_lines.
  induction names as [|f rest IH]; cbn [flat_map]; [apply Forall_nil_2|].
  apply Forall_app_2; [apply trial_lines_loop_lines|exact IH].
Qed.

Lemma no_images_message_not_loop_line (lines : list string) :
  Forall (fun l => is_loop_line l = true) lines ->
  ~ In no_images_message lines.
Proof.
  intros Hall Hin.
  rewrite List.Forall_forall in Hall.
  specialize (Hall _ Hin). discriminate.
Qed.

Lemma is_empty_map {A B : Type} (f : A -> B) (xs : list A) :
  is_empty (map f xs) = is_empty xs.
Proof. destruct xs; reflexivity. Qed.

Lemma process_missing_directory (fs : filesystem) (directory : string) (w : world) :
  isdir fs directory = false ->
  process_images_in_directory_locals fs directory w
  = (Ret (no_labels, zero_metrics), after_print [no_directory_message directory] w).
Proof.
  intros Hdir. unfold process_images_in_directory_locals.
  rewrite Hdir. reflexivity.
Qed.

Lemma process_existing_directory (fs : filesystem) (directory : string) (w : world) :
  isdir fs directory = true ->
  let pairs := batch_pairs fs directory (listdir fs directory) w in
  let acc := fold_left append_labels pairs no_labels in
  let w' := batch_world fs directory (listdir fs directory) w in
  process_images_in_directory_locals fs directory w
  = if is_empty pairs
    then (Ret (acc, zero_metrics), after_print [no_images_message] w')
    else (Ret (acc,
               (precision_score (all_true_labels acc) (all_predicted_labels acc),
                recall_score (all_true_labels acc) (all_predicted_labels acc),
                f1_score (all_true_labels acc) (all_predicted_labels acc))),
          w').
Proof.
  intros Hdir pairs acc w'. unfold process_images_in_directory_locals.
  rewrite Hdir. cbn [negb].
  rewrite (bind_ret _ _ _ _ _
             (for_each_filename_spec fs directory (listdir fs directory) _ w)).
  fold no_labels. fold pairs. fold acc. fold w'.
  assert (He : is_empty (all_true_labels acc) || is_empty (all_predicted_labels acc)
               = is_empty pairs).
  { unfold acc. rewrite fold_append_true, fold_append_predicted.
    cbn [no_labels all_true_labels all_predicted_labels app].
    rewrite !is_empty_map. apply orb_diag. }
  rewrite He. destruct (is_empty pairs); reflexivity.
Qed.

Lemma process_of_locals (fs : filesystem) (directory : string) (w w' : world)
      (r : labels * (Q * Q * Q)) :
  process_images_in_directory_locals fs directory w = (Ret r, w') ->
  process_images_in_directory fs directory w = (Ret (snd r), w').
Proof.
  intros H. unfold process_images_in_directory.
  rewrite (bind_ret _ _ _ _ _ H). reflexivity.
Qed.

(** C1, as stated, fails: an image file whose read fails still has label
    pairs appended for it. *)
Lemma C1_failed_read_still_appends :
  ~ (forall (fs : filesystem) (directory filename : string) (acc : labels) (w : world),
       is_image_name filename = true ->
       exists (acc' : labels) (w' : world),
         loop_body fs directory acc filename w = (Ret acc', w')
         /\ ((exists data, open_rb fs (path_join directory filename) = ReadOk data) ->
             length (label_pairs acc') = (length (label_pairs acc) + 2)%nat)
         /\ ((forall data, open_rb fs (path_join directory filename) <> ReadOk data) ->
             label_pairs acc' = label_pairs acc)).
Proof.
  intros Hall.
  destruct (Hall fs_unreadable "d"%string "a.png"%string no_labels (world0 0)
              eq_refl) as [acc' [w' [Hrun [_ Hfail]]]].
  vm_compute in Hrun. injection Hrun as <- _.
  specialize (Hfail ltac:(discriminate)).
  discriminate Hfail.
Qed.

(** C1, amended: for every image file the Batch Runner processes, exactly
    two label pairs are appended, the untampered trial's and then the
    tampered trial's.  When the read gives bytes to hash they are (1,1) and
    (0,p) with p the tampered prediction; when the read fails or gives no
    bytes, both trials leave by the first return and the pair (0,0) each
    returns is appended. *)
Theorem C1_two_pairs_per_image :
  forall (fs : filesystem) (directory filename : string) (acc : labels) (w : world),
    is_image_name filename = true ->
    exists (t1 t2 : Z * Z) (w' : world),
      loop_body fs directory acc filename w
      = (Ret (append_labels (append_labels acc t1) t2), w')
      /\ (readable fs (path_join directory filename) = true ->
          t1 = (1, 1)
          /\ t2 = (0, tampered_prediction fs (path_join directory filename) w))
      /\ (readable fs (path_join directory filename) = false ->
          t1 = (0, 0) /\ t2 = (0, 0)
          /\ forall (tampered : bool) (w0 : world),
               exists w1,
                 evaluate_binary_vs_sha256_at fs (path_join directory filename) tampered w0
                 = (Ret (ReturnReadEmpty, (0, 0)), w1)).
Proof.
  intros fs directory filename acc w Himg.
  rewrite loop_body_step. unfold trial_pairs. rewrite Himg. cbn [negb].
  destruct (readable fs (path_join directory filename)) eqn:Hr.
  - eexists _, _, _. split; [reflexivity|].
    split; [intros _; split; reflexivity|discriminate].
  - eexists _, _, _. split; [reflexivity|].
    split; [discriminate|]. intros _.
    split; [reflexivity|]. split; [reflexivity|].
    intros tampered w0. eexists.
    apply (evaluate_at_unreadable fs _ tampered w0 Hr).
Qed.

Lemma C1_two_pairs_per_image_witness :
  exists (t1 t2 : Z * Z) (w' : world),
    loop_body fs_one_image "d" no_labels "a.png" (world0 65)
    = (Ret (append_labels (append_labels no_labels t1) t2), w')
    /\ (readable fs_one_image (path_join "d" "a.png") = true ->
        t1 = (1, 1)
        /\ t2 = (0, tampered_prediction fs_one_image (path_join "d" "a.png") (world0 65)))
    /\ (readable fs_one_image (path_join "d" "a.png") = false ->
        t1 = (0, 0) /\ t2 = (0, 0)
        /\ forall (tampered : bool) (w0 : world),
             exists w1,
               evaluate_binary_vs_sha256_at fs_one_image (path_join "d" "a.png") tampered w0
               = (Ret (ReturnReadEmpty, (0, 0)), w1)).
Proof.
  apply (C1_two_pairs_per_image fs_one_image "d" "a.png" no_labels (world0 65)).
  reflexivity.
Defined.

(** C5: when the path names no existing directory, the Batch Runner prints
    the directory-does-not-exist line and nothing else, returns the zero
    metrics with both label lists empty, draws nothing, and consults
    neither the listing nor any file. *)
Theorem C5_missing_directory :
  forall (fs : filesystem) (directory : string) (w : world),
    isdir fs directory = false ->
    process_images_in_directory fs directory w
    = (Ret zero_metrics, after_print [no_directory_message directory] w)
    /\ process_images_in_directory_locals fs directory w
       = (Ret (no_labels, zero_metrics), after_print [no_directory_message directory] w)
    /\ forall fs' : filesystem,
         isdir fs' directory = false ->
         process_images_in_directory_locals fs' directory w
         = process_images_in_directory_locals fs directory w.
Proof.
  intros fs directory w Hdir.
  pose proof (process_missing_directory fs directory w Hdir) as Hrun.
  split; [apply (process_of_locals _ _ _ _ _ Hrun)|].
  split; [exact Hrun|].
  intros fs' Hdir'. rewrite Hrun. apply process_missing_directory, Hdir'.
Qed.

Lemma C5_missing_directory_witness :
  process_images_in_directory fs_empty_dir "fingerprintDatasets" (world0 0)
  = (Ret zero_metrics,
     after_print ["Error: The directory fingerprintDatasets does not exist."%string]
       (world0 0)).
Proof.
  apply (C5_missing_directory fs_empty_dir "fingerprintDatasets" (world0 0)).
  reflexivity.
Defined.

(** ** Counting label pairs *)

Lemma count_pairs_nonneg (t p : Z) (pairs : list (Z * Z)) :
  0 <= count_pairs t p (map fst pairs) (map snd pairs).
Proof.
  induction pairs as [|[a b] pairs IH]; cbn [map count_pairs fst snd]; [lia|].
  destruct ((a =? t) && (b =? p)); lia.
Qed.

Lemma count_pairs_absent (t p : Z) (pairs : list (Z * Z)) :
  Forall (fun tp => tp <> (t, p)) pairs ->
  count_pairs t p (map fst pairs) (map snd pairs) = 0.
Proof.
  induction 1 as [|[a b] pairs Hne _ IH]; cbn [map count_pairs fst snd]; [reflexivity|].
  rewrite IH.
  destruct (Z.eqb_spec a t), (Z.eqb_spec b p); cbn [andb]; try reflexivity.
  subst. contradiction.
Qed.

Lemma count_pairs_present (t p : Z) (pairs : list (Z * Z)) :
  In (t, p) pairs -> 0 < count_pairs t p (map fst pairs) (map snd pairs).
Proof.
  induction pairs as [|[a b] pairs IH]; cbn [In map count_pairs fst snd]; [contradiction|].
  pose proof (count_pairs_nonneg t p pairs) as Hge.
  intros [Heq|Hin].
  - injection Heq as -> ->. rewrite !Z.eqb_refl. cbn [andb]. lia.
  - specialize (IH Hin). destruct ((a =? t) && (b =? p)); lia.
Qed.

Lemma ratio_all (x : Z) : 0 < x -> ratio x (x + 0) = 1%Q.
Proof.
  intros Hx. unfold ratio. rewrite Z.add_0_r.
  destruct (Z.eqb_spec x 0); [lia|].
  change 1%Q with (Qred 1). apply Qred_complete.
  unfold Qeq. cbn [Qnum Qden]. rewrite Z2Pos.id by lia. lia.
Qed.

(** The batch of an all-unreadable listing holds (0,0) pairs only. *)
Lemma batch_pairs_all_unreadable (fs : filesystem) (directory : string)
      (names : list string) :
  (forall f, In f names -> is_image_name f = true ->
             readable fs (path_join directory f) = false) ->
  forall w, Forall (fun tp => tp = (0, 0)) (batch_pairs fs directory names w).
Proof.
  induction names as [|f rest IH]; intros Hall w; [apply Forall_nil_2|].
  cbn [batch_pairs]. apply Forall_app_2.
  - unfold trial_pairs. destruct (is_image_name f) eqn:Himg; cbn [negb];
      [|apply Forall_nil_2].
    rewrite (Hall f (or_introl eq_refl) Himg).
    repeat (apply Forall_cons_2; [reflexivity|]). apply Forall_nil_2.
  - apply IH. intros g Hg. apply Hall. right. exact Hg.
Qed.

Lemma metrics_of_zero_pairs (pairs : list (Z * Z)) :
  Forall (fun tp => tp = (0, 0)) pairs ->
  (precision_score (map fst pairs) (map snd pairs),
   recall_score (map fst pairs) (map snd pairs),
   f1_score (map fst pairs) (map snd pairs)) = zero_metrics.
Proof.
  intros Hzero.
  assert (Hcount : forall t p, (t, p) <> (0, 0) ->
                     count_pairs t p (map fst pairs) (map snd pairs) = 0).
  { intros t p Hne. apply count_pairs_absent.
    eapply Forall_impl; [exact Hzero|]. cbn. intros tp -> H. apply Hne.
    symmetry. exact H. }
  unfold f1_score, precision_score, recall_score,
    true_positives, false_positives, false_negatives.
  rewrite !Hcount by discriminate. reflexivity.
Qed.

(** C6, as stated, fails: a directory whose every image file is unreadable
    still collects labels, and the no-valid-images line is not printed. *)
Lemma C6_unreadable_files_still_collect :
  ~ (forall (fs : filesystem) (directory : string) (w : world),
       isdir fs directory = true ->
       (forall f, In f (listdir fs directory) -> is_image_name f = true ->
                  readable fs (path_join directory f) = false) ->
       exists (acc : labels) (m : Q * Q * Q) (w' : world),
         process_images_in_directory_locals fs directory w = (Ret (acc, m), w')
         /\ label_pairs acc = []
         /\ In no_images_message (stdout w')).
Proof.
  intros Hall.
  destruct (Hall fs_unreadable "d"%string (world0 0) eq_refl)
    as [acc [m [w' [Hrun [Hnone _]]]]].
  - intros f [<-|[<-|[]]] Himg; [reflexivity|discriminate Himg].
  - vm_compute in Hrun. injection Hrun as <- _ _.
    discriminate Hnone.
Qed.

(** C6, amended: in an existing directory the Batch Runner prints the
    no-valid-images line and returns the zero metrics exactly when no
    labels were collected, which happens exactly when no entry of the
    directory is an image name.  When every image file is unreadable,
    labels are collected all the same, the line is not printed, and the
    metrics computed from the labels are the zero metrics. *)
Theorem C6_no_labels_report :
  forall (fs : filesystem) (directory : string) (w : world),
    isdir fs directory = true ->
    exists (acc : labels) (m : Q * Q * Q) (lines : list string) (w' : world),
      process_images_in_directory_locals fs directory w = (Ret (acc, m), w')
      /\ stdout w' = stdout w ++ lines
      /\ (label_pairs acc = [] <-> image_count (listdir fs directory) = 0%nat)
      /\ (In no_images_message lines <-> label_pairs acc = [])
      /\ (label_pairs acc = [] -> m = zero_metrics)
      /\ (label_pairs acc <> [] ->
          m = (precision_score (all_true_labels acc) (all_predicted_labels acc),
               recall_score (all_true_labels acc) (all_predicted_labels acc),
               f1_score (all_true_labels acc) (all_predicted_labels acc)))
      /\ ((forall f, In f (listdir fs directory) -> is_image_name f = true ->
                     readable fs (path_join directory f) = false) ->
          m = zero_metrics).
Proof.
  intros fs directory w Hdir.
  pose proof (process_existing_directory fs directory w Hdir) as Hrun.
  cbv zeta in Hrun.
  pose proof (batch_pairs_length fs directory (listdir fs directory) w) as Hlen.
  pose proof (batch_world_stdout fs directory (listdir fs directory) w) as Hout.
  pose proof (no_images_message_not_loop_line _
                (batch_lines_loop_lines fs directory (listdir fs directory))) as Hmsg.
  pose proof (batch_pairs_all_unreadable fs directory (listdir fs directory)) as Hunr.
  set (pairs := batch_pairs fs directory (listdir fs directory) w) in *.
  destruct pairs as [|tp pairs'] eqn:Hp; cbn [is_empty] in Hrun.
  - eexists _, _, (batch_lines fs directory (listdir fs directory) ++ [no_images_message]), _.
    split; [exact Hrun|].
    split; [cbn [after_print stdout]; rewrite Hout, <- app_assoc; reflexivity|].
    split; [split; intros _; [cbn [length] in Hlen; lia|reflexivity]|].
    split; [split; intros _; [reflexivity|apply in_or_app; right; left; reflexivity]|].
    split; [reflexivity|].
    split; [intros H; contradiction H; reflexivity|reflexivity].
  - eexists _, _, (batch_lines fs directory (listdir fs directory)), _.
    split; [exact Hrun|].
    rewrite label_pairs_from_empty.
    split; [exact Hout|].
    split; [split; [discriminate|intros H; rewrite H in Hlen; discriminate Hlen]|].
    split; [split; [intros H; contradiction|discriminate]|].
    split; [discriminate|].
    split; [reflexivity|].
    intros Hall. rewrite fold_append_true, fold_append_predicted.
    cbn [no_labels all_true_labels all_predicted_labels app].
    apply metrics_of_zero_pairs. rewrite <- Hp. apply Hunr, Hall.
Qed.

Lemma C6_no_labels_report_witness :
  exists (acc : labels) (m : Q * Q * Q) (lines : list string) (w' : world),
    process_images_in_directory_locals fs_empty_dir "d" (world0 0) = (Ret (acc, m), w')
    /\ stdout w' = stdout (world0 0) ++ lines
    /\ (label_pairs acc = [] <-> image_count (listdir fs_empty_dir "d") = 0%nat)
    /\ (In no_images_message lines <-> label_pairs acc = [])
    /\ (label_pairs acc = [] -> m = zero_metrics)
    /\ (label_pairs acc <> [] ->
        m = (precision_score (all_true_labels acc) (all_predicted_labels acc),
             recall_score (all_true_labels acc) (all_predicted_labels acc),
             f1_score (all_true_labels acc) (all_predicted_labels acc)))
    /\ ((forall f, In f (listdir fs_empty_dir "d") -> is_image_name f = true ->
                   readable fs_empty_dir (path_join "d" f) = false) ->
        m = zero_metrics).
Proof.
  apply (C6_no_labels_report fs_empty_dir "d" (world0 0)).
  reflexivity.
Defined.

(** C9: after the loop over a directory listing, the two label lists have
    the same length, twice the number of entries that are image names,
    whether or not those files could be read; these are the lists the
    Batch Runner holds when it returns; and an image file whose read fails
    or gives no bytes contributes the pair (0,0) twice, once per trial. *)
Theorem C9_two_labels_per_image_name :
  forall (fs : filesystem) (directory : string) (w : world),
    exists (acc : labels) (w' : world),
      for_each_filename fs directory (listdir fs directory) no_labels w = (Ret acc, w')
      /\ length (all_true_labels acc) = (2 * image_count (listdir fs directory))%nat
      /\ length (all_predicted_labels acc) = (2 * image_count (listdir fs directory))%nat
      /\ (isdir fs directory = true ->
          exists (m : Q * Q * Q) (w'' : world),
            process_images_in_directory_locals fs directory w = (Ret (acc, m), w''))
      /\ (forall (filename : string) (acc0 : labels) (w0 : world),
            is_image_name filename = true ->
            readable fs (path_join directory filename) = false ->
            exists w1,
              loop_body fs directory acc0 filename w0
              = (Ret (append_labels (append_labels acc0 (0, 0)) (0, 0)), w1)).
Proof.
  intros fs directory w.
  eexists _, _. split; [apply for_each_filename_spec|].
  rewrite fold_append_true, fold_append_predicted.
  cbn [no_labels all_true_labels all_predicted_labels app].
  rewrite !length_map, batch_pairs_length.
  split; [reflexivity|]. split; [reflexivity|]. split.
  - intros Hdir.
    pose proof (process_existing_directory fs directory w Hdir) as Hrun.
    cbv zeta in Hrun.
    destruct (is_empty (batch_pairs fs directory (listdir fs directory) w));
      eexists _, _; exact Hrun.
  - intros filename acc0 w0 Himg Hr. eexists.
    rewrite loop_body_step. unfold trial_pairs. rewrite Himg, Hr. reflexivity.
Qed.

Example unreadable_image_still_labelled :
  fst (process_images_in_directory_locals fs_unreadable "d" (world0 0))
  = Ret ({| all_true_labels := [0; 0]; all_predicted_labels := [0; 0] |},
         zero_metrics).
Proof. vm_compute. reflexivity. Qed.

Example one_image_labels :
  fst (process_images_in_directory_locals fs_one_image "d" (world0 65))
  = Ret ({| all_true_labels := [1; 0]; all_predicted_labels := [1; 0] |},
         (1%Q, 1%Q, 1%Q)).
Proof. vm_compute. reflexivity. Qed.

(** The tampered trial predicts a match when the drawn byte is the one
    already there: index 1 of [ABCD] overwritten with 66, the code of [B]. *)
Example one_image_same_byte_drawn :
  fst (process_images_in_directory_locals fs_one_image "d"
         {| rng := two_draws_rng 1 66; stdout := [] |})
  = Ret ({| all_true_labels := [1; 0]; all_predicted_labels := [1; 1] |},
         (Qmake 1 2, 1%Q, Qmake 2 3)).
Proof. vm_compute. reflexivity. Qed.

(** A trial with ground truth 1 is an untampered trial on a readable path,
    and predicts 1. *)
(** A trial with ground truth 1 is an untampered trial on a readable path,
    and predicts 1. *)
Lemma evaluate_true_label (fs : filesystem) (path : string) (tampered : bool)
      (w w' : world) (t p : Z) :
  evaluate_binary_vs_sha256 fs path tampered w = (Ret (t, p), w') ->
  t = 1 -> p = 1 /\ tampered = false /\ readable fs path = true.
Proof.
  intros Hrun Ht.
  destruct (readable fs path) eqn:Hr.
  - destruct tampered.
    + rewrite (evaluate_of_at _ _ _ _ _ _ (evaluate_at_tampered fs path w Hr)) in Hrun.
      cbn [snd] in Hrun.
      fold (tampered_prediction fs path w) in Hrun.
      generalize dependent (tampered_prediction fs path w). intros x Hrun.
      assert (Hfst : 0 = t) by congruence. lia.
    + rewrite (evaluate_of_at _ _ _ _ _ _ (evaluate_at_untampered fs path w Hr)) in Hrun.
      cbn [snd] in Hrun.
      assert (Hsnd : 1 = p) by congruence. auto.
  - rewrite (evaluate_of_at _ _ _ _ _ _ (evaluate_at_unreadable fs path tampered w Hr))
      in Hrun.
    cbn [snd] in Hrun.
    assert (Hfst : 0 = t) by congruence. lia.
Qed.

(** Every pair the loop appends with ground truth 1 has prediction 1. *)
Lemma trial_pairs_true_label (fs : filesystem) (directory filename : string)
      (w : world) :
  Forall (fun tp => fst tp = 1 -> snd tp = 1) (trial_pairs fs directory filename w).
Proof.
  unfold trial_pairs.
  destruct (is_image_name filename); cbn [negb]; [|apply Forall_nil_2].
  destruct (readable fs (path_join directory filename)).
  - apply Forall_cons_2; [intros _; reflexivity|].
    apply Forall_cons_2; [cbn [fst]; intros H; lia|apply Forall_nil_2].
  - apply Forall_cons_2; [cbn [fst]; intros H; lia|].
    apply Forall_cons_2; [cbn [fst]; intros H; lia|apply Forall_nil_2].
Qed.

Lemma batch_pairs_true_label (fs : filesystem) (directory : string)
      (names : list string) :
  forall w,
    Forall (fun tp => fst tp = 1 -> snd tp = 1) (batch_pairs fs directory names w).
Proof.
  induction names as [|f rest IH]; intros w; [apply Forall_nil_2|].
  cbn [batch_pairs]. apply Forall_app_2; [apply trial_pairs_true_label|apply IH].
Qed.

(** C10: in every run of the Batch Runner no collected label pair is
    (1,0): a pair with ground truth 1 has prediction 1, since a trial with
    ground truth 1 is an untampered trial on a readable file.  So there is
    no false negative, and the recall returned is 1 as soon as one (1,1)
    pair was collected. *)
Theorem C10_no_false_negative :
  forall (fs : filesystem) (directory : string) (w : world),
    exists (acc : labels) (precision recall f1 : Q) (w' : world),
      process_images_in_directory_locals fs directory w
      = (Ret (acc, (precision, recall, f1)), w')
      /\ ~ In (1, 0) (label_pairs acc)
      /\ (forall t p : Z, In (t, p) (label_pairs acc) -> t = 1 -> p = 1)
      /\ false_negatives (all_true_labels acc) (all_predicted_labels acc) = 0
      /\ (In (1, 1) (label_pairs acc) -> recall = 1%Q)
      /\ (forall (path : string) (tampered : bool) (w0 w1 : world) (t p : Z),
            evaluate_binary_vs_sha256 fs path tampered w0 = (Ret (t, p), w1) ->
            t = 1 -> p = 1 /\ tampered = false /\ readable fs path = true).
Proof.
  intros fs directory w.
  destruct (isdir fs directory) eqn:Hdir.
  - pose proof (process_existing_directory fs directory w Hdir) as Hrun.
    cbv zeta in Hrun.
    pose proof (batch_pairs_no_false_negative fs directory (listdir fs directory) w)
      as Hnfn.
    pose proof (batch_pairs_true_label fs directory (listdir fs directory) w)
      as Htl.
    generalize dependent (batch_pairs fs directory (listdir fs directory) w).
    intros pairs Hrun Hnfn Htl.
    assert (Hno : ~ In (1, 0) pairs).
    { intros Hin. rewrite List.Forall_forall in Hnfn.
      apply (Hnfn _ Hin). reflexivity. }
    assert (Hlab : forall t p : Z, In (t, p) pairs -> t = 1 -> p = 1).
    { intros t p Hin Ht. rewrite List.Forall_forall in Htl.
      apply (Htl _ Hin). exact Ht. }
    assert (Hfn : false_negatives (map fst pairs) (map snd pairs) = 0)
      by (apply count_pairs_absent, Hnfn).
    assert (Hacc : label_pairs (fold_left append_labels pairs no_labels) = pairs)
      by apply label_pairs_from_empty.
    assert (Htrue : all_true_labels (fold_left append_labels pairs no_labels)
                    = map fst pairs)
      by (rewrite fold_append_true; reflexivity).
    assert (Hpred : all_predicted_labels (fold_left append_labels pairs no_labels)
                    = map snd pairs)
      by (rewrite fold_append_predicted; reflexivity).
    destruct (is_empty pairs) eqn:He.
    + eexists _, _, _, _, _. split; [exact Hrun|].
      rewrite Hacc, Htrue, Hpred.
      split; [exact Hno|]. split; [exact Hlab|]. split; [exact Hfn|].
      split; [destruct pairs; [contradiction|discriminate He]|].
      intros path tampered w0 w1 t p. apply evaluate_true_label.
    + eexists _, _, _, _, _. split; [exact Hrun|].
      rewrite Hacc, Htrue, Hpred.
      split; [exact Hno|]. split; [exact Hlab|]. split; [exact Hfn|].
      split; [|intros path tampered w0 w1 t p; apply evaluate_true_label].
      intros Hin. unfold recall_score.
      fold (false_negatives (map fst pairs) (map snd pairs)).
      rewrite Hfn. apply ratio_all. apply count_pairs_present, Hin.
  - eexists _, _, _, _, _.
    split; [apply (process_missing_directory fs directory w Hdir)|].
    cbn [label_pairs no_labels all_true_labels all_predicted_labels combine In].
    split; [tauto|]. split; [tauto|]. split; [reflexivity|].
    split; [tauto|].
    intros path tampered w0 w1 t p. apply evaluate_true_label.
Qed.

(** * Further properties *)

(** ** Reading and evaluating one file *)

Lemma byte_to_Z_inj (x y : byte) : byte_to_Z x = byte_to_Z y -> x = y.
Proof.
  unfold byte_to_Z. intros H. apply N2Z.inj in H.
  pose proof (Byte.of_to_N x) as Hx. pose proof (Byte.of_to_N y) as Hy.
  rewrite H in Hx. rewrite Hx in Hy. injection Hy as Hy. exact Hy.
Qed.

Lemma byte_of_Z_to_Z (x : byte) : byte_of_Z (byte_to_Z x) = x.
Proof.
  apply byte_to_Z_inj, byte_of_Z_value.
  unfold byte_to_Z. pose proof (Byte.to_N_bounded x). lia.
Qed.

(** X1: when opening or reading the file fails, the Evaluator returns
    (0,0) for either value of the tamper flag, draws nothing and prints one
    line, which names the path. *)
Theorem evaluate_failed_read :
  forall (fs : filesystem) (path : string) (tampered : bool) (w : world),
    (forall data, open_rb fs path <> ReadOk data) ->
    exists before after : string,
      evaluate_binary_vs_sha256 fs path tampered w
      = (Ret (0, 0),
         after_print [String.append before (String.append path after)] w).
Proof.
  intros fs path tampered w Hfail.
  assert (Hr : readable fs path = false).
  { unfold readable. destruct (open_rb fs path) as [data| |]; [|reflexivity..].
    contradiction (Hfail data). reflexivity. }
  pose proof (evaluate_of_at _ _ _ _ _ _ (evaluate_at_unreadable fs path tampered w Hr))
    as Hrun.
  cbn [snd] in Hrun. rewrite Hrun. unfold read_diagnostics.
  destruct (open_rb fs path) as [data| |].
  - contradiction (Hfail data). reflexivity.
  - eexists _, _. reflexivity.
  - eexists _, _. reflexivity.
Qed.

Lemma evaluate_failed_read_witness :
  exists before after : string,
    evaluate_binary_vs_sha256 fs_unreadable "d/a.png" true (world0 3)
    = (Ret (0, 0),
       after_print [String.append before (String.append "d/a.png" after)] (world0 3)).
Proof.
  apply (evaluate_failed_read fs_unreadable "d/a.png" true (world0 3)).
  intros data. discriminate.
Defined.

(** X2: a file that is read without error but holds no bytes gives (0,0)
    for either value of the tamper flag, and nothing tells it from a failed
    trial: nothing is printed and nothing is drawn. *)
Theorem evaluate_zero_byte_file :
  forall (fs : filesystem) (path : string) (tampered : bool) (w : world),
    open_rb fs path = ReadOk [] ->
    evaluate_binary_vs_sha256 fs path tampered w = (Ret (0, 0), w).
Proof.
  intros fs path tampered w Hopen.
  assert (Hr : readable fs path = false) by (unfold readable; rewrite Hopen; reflexivity).
  pose proof (evaluate_of_at _ _ _ _ _ _ (evaluate_at_unreadable fs path tampered w Hr))
    as Hrun.
  cbn [snd] in Hrun. rewrite Hrun. unfold read_diagnostics. rewrite Hopen.
  rewrite after_print_nil. reflexivity.
Qed.

Lemma evaluate_zero_byte_file_witness :
  evaluate_binary_vs_sha256 fs_empty_image "d/a.png" true (world0 3)
  = (Ret (0, 0), world0 3).
Proof.
  apply (evaluate_zero_byte_file fs_empty_image "d/a.png" true (world0 3)).
  reflexivity.
Defined.

(** X3: the Tamperer returns its input unchanged exactly when the value it
    draws is the value of the byte already at the index it draws. *)
Theorem tamper_image_unchanged_iff :
  forall (b : bytes) (w : world),
    b <> [] ->
    (fst (tamper_image b w) = Ret b
     <-> exists x : byte,
           b !! chosen_index (length b) w = Some x
           /\ byte_to_Z x = chosen_value w).
Proof.
  intros b w Hb. rewrite (tamper_image_nonempty b w Hb). cbn [fst].
  assert (Hn : (0 < length b)%nat) by (apply is_empty_length, is_empty_false, Hb).
  pose proof (chosen_index_lt (length b) w Hn) as Hi.
  unfold tampered_bytes. split.
  - intros Heq. assert (Heq' : <[chosen_index (length b) w :=
                                   byte_of_Z (chosen_value w)]> b = b) by congruence.
    exists (byte_of_Z (chosen_value w)). split.
    + pose proof (list_lookup_insert_eq b (chosen_index (length b) w)
                    (byte_of_Z (chosen_value w)) Hi) as Hlook.
      exact (eq_ind _ (fun l : list byte =>
                         l !! chosen_index (length b) w
                         = Some (byte_of_Z (chosen_value w))) Hlook _ Heq').
    + apply byte_of_Z_value, chosen_value_byte.
  - intros [x [Hx Hv]]. f_equal. apply list_insert_id.
    rewrite <- Hv, byte_of_Z_to_Z. exact Hx.
Qed.

Lemma tamper_image_unchanged_iff_witness :
  fst (tamper_image (bytes_of_string "ABCD")
         {| rng := two_draws_rng 1 66; stdout := [] |})
  = Ret (bytes_of_string "ABCD")
  <-> exists x : byte,
        bytes_of_string "ABCD"
          !! chosen_index (length (bytes_of_string "ABCD"))
               {| rng := two_draws_rng 1 66; stdout := [] |} = Some x
        /\ byte_to_Z x = chosen_value {| rng := two_draws_rng 1 66; stdout := [] |}.
Proof.
  apply (tamper_image_unchanged_iff (bytes_of_string "ABCD")
           {| rng := two_draws_rng 1 66; stdout := [] |}).
  discriminate.
Defined.

(** X4: a tampered trial goes undetected when the drawn value is the one
    already in place: on a file that gives bytes, if the byte at the drawn
    index has the drawn value, the Evaluator returns ground truth 0 with
    prediction 1. *)
Theorem evaluate_tamper_same_byte :
  forall (fs : filesystem) (path : string) (data : bytes) (x : byte) (w : world),
    open_rb fs path = ReadOk data ->
    data !! chosen_index (length data) w = Some x ->
    byte_to_Z x = chosen_value w ->
    evaluate_binary_vs_sha256 fs path true w = (Ret (0, 1), after_draws 2 w).
Proof.
  intros fs path data x w Hopen Hx Hv.
  assert (Hne : data <> []) by (intros ->; discriminate Hx).
  assert (Hr : readable fs path = true).
  { unfold readable. rewrite Hopen, (is_empty_false data Hne). reflexivity. }
  assert (Hb : read_bytes fs path = data) by (unfold read_bytes; rewrite Hopen; reflexivity).
  pose proof (evaluate_of_at _ _ _ _ _ _ (evaluate_at_tampered fs path w Hr)) as Hrun.
  cbn [snd] in Hrun. rewrite Hrun, Hb.
  assert (Hsame : tampered_bytes data w = data).
  { unfold tampered_bytes. apply list_insert_id.
    rewrite <- Hv, byte_of_Z_to_Z. exact Hx. }
  rewrite Hsame, String.eqb_refl. reflexivity.
Qed.

Lemma evaluate_tamper_same_byte_witness :
  evaluate_binary_vs_sha256 fs_one_image "d/a.png" true
    {| rng := two_draws_rng 1 66; stdout := [] |}
  = (Ret (0, 1), after_draws 2 {| rng := two_draws_rng 1 66; stdout := [] |}).
Proof.
  apply (evaluate_tamper_same_byte fs_one_image "d/a.png"
           (bytes_of_string "ABCD") "B"%byte
           {| rng := two_draws_rng 1 66; stdout := [] |}).
  - reflexivity.
  - reflexivity.
  - reflexivity.
Defined.

(** X5: whatever the read gives among the outcomes the File Reader
    handles (bytes, file not found, I/O error), the two labels the
    Evaluator returns are 0 or 1; the ground truth is 1 exactly on an
    untampered trial of a file that gives bytes; and it draws two numbers
    on a tampered trial of such a file and none in every other case. *)
Theorem evaluate_labels_and_draws :
  forall (fs : filesystem) (path : string) (tampered : bool) (w : world),
    exists (t p : Z) (w' : world),
      evaluate_binary_vs_sha256 fs path tampered w = (Ret (t, p), w')
      /\ t = (if negb tampered && readable fs path then 1 else 0)
      /\ (p = 0 \/ p = 1)
      /\ raw (rng w') = raw (rng w)
      /\ pos (rng w')
         = ((if tampered && readable fs path then 2 else 0) + pos (rng w))%nat.
Proof.
  intros fs path tampered w.
  destruct (readable fs path) eqn:Hr.
  - destruct tampered.
    + pose proof (evaluate_of_at _ _ _ _ _ _ (evaluate_at_tampered fs path w Hr)) as Hrun.
      cbn [snd] in Hrun. fold (tampered_prediction fs path w) in Hrun.
      eexists _, _, _. split; [exact Hrun|].
      split; [reflexivity|]. split; [|split; reflexivity].
      unfold tampered_prediction.
      destruct (String.eqb _ _); [right|left]; reflexivity.
    + pose proof (evaluate_of_at _ _ _ _ _ _ (evaluate_at_untampered fs path w Hr)) as Hrun.
      cbn [snd] in Hrun.
      eexists _, _, _. split; [exact Hrun|].
      split; [reflexivity|]. split; [right; reflexivity|split; reflexivity].
  - pose proof (evaluate_of_at _ _ _ _ _ _ (evaluate_at_unreadable fs path tampered w Hr))
      as Hrun.
    cbn [snd] in Hrun.
    eexists _, _, _. split; [exact Hrun|].
    split; [destruct tampered; reflexivity|].
    split; [left; reflexivity|].
    split; [reflexivity|destruct tampered; reflexivity].
Qed.

(** ** The extension filter *)

Lemma string_length_app (s t : string) :
  String.length (String.append s t) = (String.length s + String.length t)%nat.
Proof. induction s as [|c s IH]; cbn; [reflexivity|]. rewrite IH. reflexivity. Qed.

Lemma substring_whole (s : string) : substring 0 (String.length s) s = s.
Proof. induction s as [|c s IH]; cbn; [reflexivity|]. rewrite IH. reflexivity. Qed.

Lemma substring_after (s t : string) (m : nat) :
  substring (String.length s) m (String.append s t) = substring 0 m t.
Proof. induction s as [|c s IH]; cbn; [reflexivity|exact IH]. Qed.

Lemma substring_split (s : string) :
  forall k : nat,
    (k <= String.length s)%nat ->
    s = String.append (substring 0 k s) (substring k (String.length s - k) s).
Proof.
  induction s as [|c s IH]; intros k Hk.
  - cbn in Hk. assert (k = 0%nat) as -> by lia. reflexivity.
  - destruct k as [|k].
    + rewrite Nat.sub_0_r, substring_whole. reflexivity.
    + cbn [String.length] in Hk. cbn [substring String.append String.length Nat.sub].
      f_equal. apply IH. lia.
Qed.

Lemma endswith_app (s suffix : string) :
  endswith (String.append s suffix) suffix = true.
Proof.
  unfold endswith. rewrite string_length_app.
  replace (String.length s + String.length suffix - String.length suffix)%nat
    with (String.length s) by lia.
  rewrite substring_after, substring_whole, String.eqb_refl.
  destruct (Nat.leb_spec (String.length suffix)
              (String.length s + String.length suffix)); [reflexivity|lia].
Qed.

Lemma endswith_split (s suffix : string) :
  endswith s suffix = true -> exists stem, s = String.append stem suffix.
Proof.
  unfold endswith. intros H. apply andb_true_iff in H as [Hle Heq].
  apply Nat.leb_le in Hle. apply String.eqb_eq in Heq.
  exists (substring 0 (String.length s - String.length suffix) s).
  pose proof (substring_split s (String.length s - String.length suffix)
                ltac:(lia)) as Hs.
  replace (String.length s - (String.length s - String.length suffix))%nat
    with (String.length suffix) in Hs by lia.
  rewrite Heq in Hs. exact Hs.
Qed.

Lemma lower_length (s : string) : String.length (lower s) = String.length s.
Proof. induction s as [|c s IH]; cbn; [reflexivity|]. rewrite IH. reflexivity. Qed.

Lemma lower_ascii_idempotent (c : ascii) : lower_ascii (lower_ascii c) = lower_ascii c.
Proof. destruct c as [[] [] [] [] [] [] [] []]; reflexivity. Qed.

Lemma lower_idempotent (s : string) : lower (lower s) = lower s.
Proof.
  induction s as [|c s IH]; cbn [lower]; [reflexivity|].
  rewrite lower_ascii_idempotent, IH. reflexivity.
Qed.

Lemma lower_app (s t : string) :
  lower (String.append s t) = String.append (lower s) (lower t).
Proof. induction s as [|c s IH]; cbn; [reflexivity|]. rewrite IH. reflexivity. Qed.

Lemma image_extensions_lower (ext : string) :
  In ext image_extensions -> lower ext = ext /\ (4 <= String.length ext)%nat.
Proof.
  unfold image_extensions. cbn [In].
  intros [<-|[<-|[<-|[<-|[]]]]]; split; try reflexivity; cbn; lia.
Qed.

Lemma image_name_ends (filename : string) :
  is_image_name filename = true
  <-> exists stem ext : string,
        In ext image_extensions /\ lower filename = String.append stem ext.
Proof.
  unfold is_image_name, endswith_any. rewrite existsb_exists. split.
  - intros [ext [Hin Hend]]. apply endswith_split in Hend as [stem Hstem].
    exists stem, ext. split; assumption.
  - intros [stem [ext [Hin Heq]]]. exists ext. split; [exact Hin|].
    rewrite Heq. apply endswith_app.
Qed.

(** X6: a directory entry is taken as an image exactly when its name, in
    lower case, is some stem followed by one of .png, .jpg, .jpeg, .bmp;
    the stem may be empty, and a name of fewer than four characters is
    never taken. *)
Theorem is_image_name_iff :
  forall filename : string,
    (is_image_name filename = true
     <-> exists stem ext : string,
           In ext image_extensions
           /\ lower filename = String.append stem ext)
    /\ ((String.length filename < 4)%nat -> is_image_name filename = false).
Proof.
  intros filename. split; [apply image_name_ends|].
  intros Hshort. destruct (is_image_name filename) eqn:Himg; [|reflexivity].
  apply image_name_ends in Himg as [stem [ext [Hin Heq]]].
  apply (f_equal String.length) in Heq.
  rewrite lower_length, string_length_app in Heq.
  apply image_extensions_lower in Hin as [_ Hlen]. lia.
Qed.

(** X7: the filter ignores case and looks at the end of the name only: a
    name and its lower-casing are classed alike, and any stem followed by
    one of the four extensions is an image name whatever the case of the
    stem. *)
Theorem is_image_name_case_insensitive :
  forall filename : string,
    is_image_name (lower filename) = is_image_name filename
    /\ forall stem ext : string,
         In ext image_extensions ->
         is_image_name (String.append stem ext) = true.
Proof.
  intros filename. split.
  - unfold is_image_name. rewrite lower_idempotent. reflexivity.
  - intros stem ext Hin. apply image_name_ends.
    exists (lower stem), ext. split; [exact Hin|].
    rewrite lower_app. f_equal. apply image_extensions_lower, Hin.
Qed.

(** ** The loop over a listing *)

Lemma batch_pairs_true (fs : filesystem) (directory : string) (names : list string) :
  forall w,
    map fst (batch_pairs fs directory names w)
    = listing_true_labels fs directory names.
Proof.
  unfold listing_true_labels.
  induction names as [|f rest IH]; intros w; [reflexivity|].
  cbn [batch_pairs flat_map]. rewrite map_app, IH. f_equal.
  unfold trial_pairs. destruct (is_image_name f); cbn [negb]; [|reflexivity].
  destruct (readable fs (path_join directory f)); reflexivity.
Qed.

Lemma batch_world_rng (fs : filesystem) (directory : string) (names : list string) :
  forall w,
    raw (rng (batch_world fs directory names w)) = raw (rng w)
    /\ pos (rng (batch_world fs directory names w))
       = (2 * readable_count fs directory names + pos (rng w))%nat.
Proof.
  unfold readable_count.
  induction names as [|f rest IH]; intros w; [split; reflexivity|].
  cbn [batch_world List.filter].
  destruct (IH (trial_world fs directory f w)) as [Hraw Hpos].
  rewrite Hraw, Hpos. unfold trial_world, trial_draws.
  fold (is_readable_image fs directory f).
  cbn [after_draws after_print rng raw pos].
  split; [reflexivity|].
  destruct (is_readable_image fs directory f); cbn [length]; lia.
Qed.

(** ** What a run collects, draws and prints *)

(** X9: in an existing directory the ground-truth list the Batch Runner
    ends with is fixed by the listing and by which files give bytes, in
    listing order: 1 then 0 for each image that gives bytes, 0 twice for
    any other image name, nothing for other entries; the random draws play
    no part in it, and the predicted list has the same length. *)
Theorem process_true_labels :
  forall (fs : filesystem) (directory : string) (w : world),
    isdir fs directory = true ->
    exists (acc : labels) (m : Q * Q * Q) (w' : world),
      process_images_in_directory_locals fs directory w = (Ret (acc, m), w')
      /\ all_true_labels acc
         = listing_true_labels fs directory (listdir fs directory)
      /\ length (all_predicted_labels acc) = length (all_true_labels acc).
Proof.
  intros fs directory w Hdir.
  pose proof (process_existing_directory fs directory w Hdir) as Hrun.
  cbv zeta in Hrun.
  pose proof (batch_pairs_true fs directory (listdir fs directory) w) as Htrue.
  generalize dependent (batch_pairs fs directory (listdir fs directory) w).
  intros pairs Hrun Htrue.
  assert (Hacc : all_true_labels (fold_left append_labels pairs no_labels)
                 = listing_true_labels fs directory (listdir fs directory)
                 /\ length (all_predicted_labels (fold_left append_labels pairs no_labels))
                    = length (all_true_labels (fold_left append_labels pairs no_labels))).
  { rewrite fold_append_true, fold_append_predicted.
    cbn [no_labels all_true_labels all_predicted_labels app].
    rewrite !length_map. split; [exact Htrue|reflexivity]. }
  destruct (is_empty pairs); eexists _, _, _; (split; [exact Hrun|exact Hacc]).
Qed.

Lemma process_true_labels_witness :
  exists (acc : labels) (m : Q * Q * Q) (w' : world),
    process_images_in_directory_locals fs_datasets "fingerprintDatasets" (world0 65)
    = (Ret (acc, m), w')
    /\ all_true_labels acc
       = listing_true_labels fs_datasets "fingerprintDatasets"
           (listdir fs_datasets "fingerprintDatasets")
    /\ length (all_predicted_labels acc) = length (all_true_labels acc).
Proof.
  apply (process_true_labels fs_datasets "fingerprintDatasets" (world0 65)).
  reflexivity.
Defined.

(** X10: a run over an existing directory draws exactly two random numbers
    for each listed image that gives bytes, and none for any other entry. *)
Theorem process_draws :
  forall (fs : filesystem) (directory : string) (w : world),
    isdir fs directory = true ->
    exists (m : Q * Q * Q) (w' : world),
      process_images_in_directory fs directory w = (Ret m, w')
      /\ raw (rng w') = raw (rng w)
      /\ pos (rng w')
         = (2 * readable_count fs directory (listdir fs directory) + pos (rng w))%nat.
Proof.
  intros fs directory w Hdir.
  pose proof (process_existing_directory fs directory w Hdir) as Hrun.
  cbv zeta in Hrun.
  pose proof (batch_world_rng fs directory (listdir fs directory) w) as Hrng.
  destruct (is_empty (batch_pairs fs directory (listdir fs directory) w));
    eexists _, _; (split; [apply (process_of_locals _ _ _ _ _ Hrun)|exact Hrng]).
Qed.

Lemma process_draws_witness :
  exists (m : Q * Q * Q) (w' : world),
    process_images_in_directory fs_datasets "fingerprintDatasets" (world0 65)
    = (Ret m, w')
    /\ raw (rng w') = raw (rng (world0 65))
    /\ pos (rng w')
       = (2 * readable_count fs_datasets "fingerprintDatasets"
                (listdir fs_datasets "fingerprintDatasets")
          + pos (rng (world0 65)))%nat.
Proof.
  apply (process_draws fs_datasets "fingerprintDatasets" (world0 65)).
  reflexivity.
Defined.




(** ** The metrics of a run *)

Lemma count_pairs_app (t p : Z) (l1 l2 : list (Z * Z)) :
  count_pairs t p (map fst (l1 ++ l2)) (map snd (l1 ++ l2))
  = count_pairs t p (map fst l1) (map snd l1)
    + count_pairs t p (map fst l2) (map snd l2).
Proof.
  induction l1 as [|[a b] l1 IH]; cbn [app map count_pairs fst snd]; [reflexivity|].
  rewrite IH. lia.
Qed.

Lemma trial_true_positives (fs : filesystem) (directory filename : string) (w : world) :
  true_positives (map fst (trial_pairs fs directory filename w))
                 (map snd (trial_pairs fs directory filename w))
  = if is_readable_image fs directory filename then 1 else 0.
Proof.
  unfold trial_pairs, is_readable_image, true_positives.
  destruct (is_image_name filename); cbn [negb andb]; [|reflexivity].
  destruct (readable fs (path_join directory filename)); [|reflexivity].
  generalize (tampered_prediction fs (path_join directory filename) w).
  intros x. reflexivity.
Qed.

Lemma batch_true_positives (fs : filesystem) (directory : string) (names : list string) :
  forall w,
    true_positives (map fst (batch_pairs fs directory names w))
                   (map snd (batch_pairs fs directory names w))
    = Z.of_nat (readable_count fs directory names).
Proof.
  unfold readable_count.
  induction names as [|f rest IH]; intros w; [reflexivity|].
  cbn [batch_pairs List.filter]. unfold true_positives in *.
  rewrite count_pairs_app, IH.
  pose proof (trial_true_positives fs directory f w) as Ht.
  unfold true_positives in Ht. rewrite Ht.
  destruct (is_readable_image fs directory f); cbn [length]; lia.
Qed.

Lemma ratio_zero (d : Z) : (ratio 0 d == 0)%Q.
Proof.
  unfold ratio. destruct (d =? 0); [reflexivity|].
  rewrite Qred_correct. reflexivity.
Qed.

Lemma ratio_unit (n d : Z) : 0 <= n <= d -> in_unit_interval (ratio n d).
Proof.
  intros Hnd. unfold in_unit_interval, ratio.
  destruct (Z.eqb_spec d 0) as [Hd|Hd]; [split; discriminate|].
  rewrite Qred_correct. unfold Qle. cbn [Qnum Qden].
  rewrite Z2Pos.id by lia. lia.
Qed.

Lemma f1_unit (p r : Q) :
  in_unit_interval p -> in_unit_interval r ->
  in_unit_interval
    (if Qeq_bool (p + r) 0 then 0%Q else Qred ((2 * p * r) / (p + r))).
Proof.
  unfold in_unit_interval. intros [Hp0 Hp1] [Hr0 Hr1].
  destruct (Qeq_bool (p + r) 0) eqn:Hz; [split; discriminate|].
  apply Qeq_bool_neq in Hz.
  assert (Hpos : (0 < p + r)%Q) by lra.
  rewrite Qred_correct. split.
  - apply Qle_shift_div_l; [exact Hpos|]. nra.
  - apply Qle_shift_div_r; [exact Hpos|]. nra.
Qed.

Lemma count_pairs_ge0 (t p : Z) (ys : list Z) :
  forall ps, 0 <= count_pairs t p ys ps.
Proof.
  induction ys as [|y ys IH]; intros [|q ps]; cbn [count_pairs]; try lia.
  specialize (IH ps). destruct ((y =? t) && (q =? p)); lia.
Qed.

Lemma metrics_unit (y_true y_pred : list Z) :
  in_unit_interval (precision_score y_true y_pred)
  /\ in_unit_interval (recall_score y_true y_pred)
  /\ in_unit_interval (f1_score y_true y_pred).
Proof.
  assert (Hp : in_unit_interval (precision_score y_true y_pred)).
  { unfold precision_score, true_positives, false_positives. apply ratio_unit.
    pose proof (count_pairs_ge0 1 1 y_true y_pred).
    pose proof (count_pairs_ge0 0 1 y_true y_pred). lia. }
  assert (Hr : in_unit_interval (recall_score y_true y_pred)).
  { unfold recall_score, true_positives, false_negatives. apply ratio_unit.
    pose proof (count_pairs_ge0 1 1 y_true y_pred).
    pose proof (count_pairs_ge0 1 0 y_true y_pred). lia. }
  split; [exact Hp|]. split; [exact Hr|].
  unfold f1_score. apply f1_unit; assumption.
Qed.

(** X12: every metric the Batch Runner returns lies between 0 and 1. *)
Theorem process_metrics_in_unit_interval :
  forall (fs : filesystem) (directory : string) (w : world),
    exists (precision recall f1 : Q) (w' : world),
      process_images_in_directory fs directory w = (Ret (precision, recall, f1), w')
      /\ in_unit_interval precision
      /\ in_unit_interval recall
      /\ in_unit_interval f1.
Proof.
  intros fs directory w.
  assert (Hzero : in_unit_interval 0) by (split; discriminate).
  destruct (isdir fs directory) eqn:Hdir.
  - pose proof (process_existing_directory fs directory w Hdir) as Hrun.
    cbv zeta in Hrun.
    destruct (is_empty (batch_pairs fs directory (listdir fs directory) w)).
    + eexists _, _, _, _.
      split; [apply (process_of_locals _ _ _ _ _ Hrun)|].
      split; [exact Hzero|split; exact Hzero].
    + eexists _, _, _, _.
      split; [apply (process_of_locals _ _ _ _ _ Hrun)|].
      apply metrics_unit.
  - eexists _, _, _, _.
    split; [apply (process_of_locals _ _ _ _ _
                     (process_missing_directory fs directory w Hdir))|].
    split; [exact Hzero|split; exact Hzero].
Qed.

(** The metrics of a run over an existing directory, by whether some
    listed image gives bytes. *)
Lemma process_metrics_cases (fs : filesystem) (directory : string) (w : world) :
  isdir fs directory = true ->
  exists (acc : labels) (precision recall f1 : Q) (w' : world),
    process_images_in_directory_locals fs directory w
    = (Ret (acc, (precision, recall, f1)), w')
    /\ true_positives (all_true_labels acc) (all_predicted_labels acc)
       = Z.of_nat (readable_count fs directory (listdir fs directory))
    /\ (readable_count fs directory (listdir fs directory) <> 0%nat ->
        recall = 1%Q /\ ~ (precision == 0)%Q)
    /\ (readable_count fs directory (listdir fs directory) = 0%nat ->
        (precision == 0)%Q /\ recall = 0%Q /\ f1 = 0%Q).
Proof.
  intros Hdir.
  pose proof (process_existing_directory fs directory w Hdir) as Hrun.
  cbv zeta in Hrun.
  pose proof (batch_true_positives fs directory (listdir fs directory) w) as Htp.
  pose proof (batch_pairs_no_false_negative fs directory (listdir fs directory) w)
    as Hnfn.
  generalize dependent (batch_pairs fs directory (listdir fs directory) w).
  intros pairs Hrun Htp Hnfn.
  assert (Hfn : false_negatives (map fst pairs) (map snd pairs) = 0)
    by (apply count_pairs_absent, Hnfn).
  assert (Htrue : all_true_labels (fold_left append_labels pairs no_labels)
                  = map fst pairs)
    by (rewrite fold_append_true; reflexivity).
  assert (Hpred : all_predicted_labels (fold_left append_labels pairs no_labels)
                  = map snd pairs)
    by (rewrite fold_append_predicted; reflexivity).
  set (n := readable_count fs directory (listdir fs directory)) in *.
  destruct (is_empty pairs) eqn:He.
  - eexists _, _, _, _, _. split; [exact Hrun|].
    rewrite Htrue, Hpred. split; [exact Htp|].
    destruct pairs; [|discriminate He].
    cbn in Htp. split; [intros Hn; lia|].
    intros _. split; [reflexivity|split; reflexivity].
  - eexists _, _, _, _, _. split; [exact Hrun|].
    rewrite Htrue, Hpred. split; [exact Htp|].
    unfold f1_score, precision_score, recall_score.
    rewrite Hfn, Htp. split.
    + intros Hn. split; [apply ratio_all; lia|].
      pose proof (count_pairs_ge0 0 1 (map fst pairs) (map snd pairs)) as Hfp.
      unfold false_positives, ratio.
      destruct (Z.eqb_spec (Z.of_nat n + count_pairs 0 1 (map fst pairs) (map snd pairs)) 0);
        [lia|].
      rewrite Qred_correct. unfold Qeq. cbn [Qnum Qden]. lia.
    + intros Hn. rewrite Hn. change (Z.of_nat 0) with 0.
      assert (Hr : ratio 0 (0 + 0) = 0%Q) by reflexivity.
      rewrite Hr.
      pose proof (ratio_zero (0 + false_positives (map fst pairs) (map snd pairs))) as Hp.
      split; [exact Hp|]. split; [reflexivity|].
      assert (Hsum : Qeq_bool
                       (ratio 0 (0 + false_positives (map fst pairs) (map snd pairs)) + 0)
                       0 = true).
      { apply Qeq_bool_iff. rewrite Hp. reflexivity. }
      rewrite Hsum. reflexivity.
Qed.

(** X13: over an existing directory the true positives are the listed
    images that give bytes, one each; the recall returned is 1 when there
    is at least one and 0 when there is none, whatever the draws; and the
    precision returned is zero exactly when there is none. *)
Theorem process_recall_value :
  forall (fs : filesystem) (directory : string) (w : world),
    isdir fs directory = true ->
    exists (acc : labels) (precision recall f1 : Q) (w' : world),
      process_images_in_directory_locals fs directory w
      = (Ret (acc, (precision, recall, f1)), w')
      /\ true_positives (all_true_labels acc) (all_predicted_labels acc)
         = Z.of_nat (readable_count fs directory (listdir fs directory))
      /\ recall
         = (if Nat.eqb (readable_count fs directory (listdir fs directory)) 0
            then 0%Q else 1%Q)
      /\ ((precision == 0)%Q
          <-> readable_count fs directory (listdir fs directory) = 0%nat).
Proof.
  intros fs directory w Hdir.
  destruct (process_metrics_cases fs directory w Hdir)
    as [acc [p [r [f [w' [Hrun [Htp [Hsome Hnone]]]]]]]].
  exists acc, p, r, f, w'. split; [exact Hrun|]. split; [exact Htp|].
  destruct (Nat.eqb_spec (readable_count fs directory (listdir fs directory)) 0)
    as [Hz|Hnz].
  - destruct (Hnone Hz) as [Hp [Hr _]]. split; [exact Hr|].
    split; [intros _; exact Hz|intros _; exact Hp].
  - destruct (Hsome Hnz) as [Hr Hp]. split; [exact Hr|].
    split; [intros H; contradiction|intros H; contradiction].
Qed.

Lemma process_recall_value_witness :
  exists (acc : labels) (precision recall f1 : Q) (w' : world),
    process_images_in_directory_locals fs_datasets "fingerprintDatasets" (world0 65)
    = (Ret (acc, (precision, recall, f1)), w')
    /\ true_positives (all_true_labels acc) (all_predicted_labels acc)
       = Z.of_nat (readable_count fs_datasets "fingerprintDatasets"
                     (listdir fs_datasets "fingerprintDatasets"))
    /\ recall
       = (if Nat.eqb (readable_count fs_datasets "fingerprintDatasets"
                        (listdir fs_datasets "fingerprintDatasets")) 0
          then 0%Q else 1%Q)
    /\ ((precision == 0)%Q
        <-> readable_count fs_datasets "fingerprintDatasets"
              (listdir fs_datasets "fingerprintDatasets") = 0%nat).
Proof.
  apply (process_recall_value fs_datasets "fingerprintDatasets" (world0 65)).
  reflexivity.
Defined.

(** ** The hexadecimal rendering of a digest *)

Lemma unhex_hex_byte (b : byte) :
  byte_of_Z (Z.of_N (16 * unhexchar (SHA256.hexchar (Byte.to_N b / 16))
                     + unhexchar (SHA256.hexchar (Byte.to_N b mod 16)))) = b.
Proof. destruct b; reflexivity. Qed.

Lemma unhex_hex (bs : bytes) : unhex (SHA256.hex bs) = bs.
Proof.
  induction bs as [|b bs IH]; [reflexivity|].
  cbn [SHA256.hex unhex]. rewrite unhex_hex_byte, IH. reflexivity.
Qed.

(** X14: the hexadecimal digest loses nothing of the 32-byte digest:
    decoding it gives the digest back, so the equality of two hexadecimal
    digests, which the Evaluator tests, is the equality of the two
    digests. *)
Theorem hexdigest_round_trip :
  forall data : bytes,
    unhex (generate_sha256_hash data) = SHA256.digest data
    /\ forall other : bytes,
         generate_sha256_hash data = generate_sha256_hash other
         <-> SHA256.digest data = SHA256.digest other.
Proof.
  intros data.
  assert (Hback : forall d, unhex (generate_sha256_hash d) = SHA256.digest d).
  { intros d. unfold generate_sha256_hash, SHA256.hexdigest. apply unhex_hex. }
  split; [apply Hback|].
  intros other. split.
  - intros H. rewrite <- (Hback data), <- (Hback other), H. reflexivity.
  - intros H. unfold generate_sha256_hash, SHA256.hexdigest. rewrite H. reflexivity.
Qed.

(** ** The entry point *)

Lemma three_prints (a b c : string) (w : world) :
  (print a ;;; print b ;;; print c) w = (Ret tt, after_print [a; b; c] w).
Proof.
  unfold bind, print. cbn [rng stdout]. f_equal.
  apply world_eq; cbn [after_print rng stdout raw pos]; try reflexivity.
  rewrite <- !app_assoc. reflexivity.
Qed.

(** X15: when fingerprintDatasets is no directory, the program prints the
    directory-does-not-exist line and nothing else: no average is
    printed, and nothing is raised. *)
Theorem main_missing_directory :
  forall (float_str : Q -> string) (fs : filesystem) (w : world),
    isdir fs "fingerprintDatasets" = false ->
    main float_str fs w
    = (Ret tt, after_print [no_directory_message "fingerprintDatasets"] w).
Proof.
  intros float_str fs w Hdir.
  pose proof (process_of_locals _ _ _ _ _
                (process_missing_directory fs "fingerprintDatasets" w Hdir)) as Hrun.
  unfold main. rewrite (bind_ret _ _ _ _ _ Hrun). reflexivity.
Qed.

Lemma main_missing_directory_witness :
  main plain_float_str fs_empty_dir (world0 0)
  = (Ret tt, after_print [no_directory_message "fingerprintDatasets"] (world0 0)).
Proof.
  apply (main_missing_directory plain_float_str fs_empty_dir (world0 0)).
  reflexivity.
Defined.

(** X16: when fingerprintDatasets exists, the program prints the three
    averages, after what the Batch Runner printed, exactly when at least
    one listed image gives bytes, and the recall it then prints is that of
    1; when no listed image gives bytes it prints no average at all. *)
Theorem main_prints_averages :
  forall (float_str : Q -> string) (fs : filesystem) (w : world),
    isdir fs "fingerprintDatasets" = true ->
    exists (precision recall f1 : Q) (w1 : world),
      process_images_in_directory fs "fingerprintDatasets" w
      = (Ret (precision, recall, f1), w1)
      /\ (readable_count fs "fingerprintDatasets"
            (listdir fs "fingerprintDatasets") = 0%nat ->
          main float_str fs w = (Ret tt, w1))
      /\ (readable_count fs "fingerprintDatasets"
            (listdir fs "fingerprintDatasets") <> 0%nat ->
          main float_str fs w
          = (Ret tt,
             after_print
               [String.append newline
                  (String.append "Average Precision: " (float_str precision));
                String.append "Average Recall: " (float_str 1%Q);
                String.append "Average F1-Score: " (float_str f1)] w1)).
Proof.
  intros float_str fs w Hdir.
  destruct (process_metrics_cases fs "fingerprintDatasets" w Hdir)
    as [acc [p [r [f [w1 [Hlocals [_ [Hsome Hnone]]]]]]]].
  pose proof (process_of_locals _ _ _ _ _ Hlocals) as Hrun. cbn [snd] in Hrun.
  exists p, r, f, w1. split; [exact Hrun|]. split.
  - intros Hz. destruct (Hnone Hz) as [Hp [Hr Hf]].
    unfold main. rewrite (bind_ret _ _ _ _ _ Hrun). cbn [fst snd].
    apply Qeq_bool_iff in Hp. rewrite Hp, Hr, Hf. reflexivity.
  - intros Hnz. destruct (Hsome Hnz) as [Hr _].
    unfold main. rewrite (bind_ret _ _ _ _ _ Hrun). cbn [fst snd].
    rewrite Hr. change (negb (Qeq_bool 1 0)) with true.
    rewrite orb_true_r. cbn [orb].
    apply three_prints.
Qed.

Lemma main_prints_averages_witness :
  exists (precision recall f1 : Q) (w1 : world),
    process_images_in_directory fs_datasets "fingerprintDatasets" (world0 65)
    = (Ret (precision, recall, f1), w1)
    /\ (readable_count fs_datasets "fingerprintDatasets"
          (listdir fs_datasets "fingerprintDatasets") = 0%nat ->
        main plain_float_str fs_datasets (world0 65) = (Ret tt, w1))
    /\ (readable_count fs_datasets "fingerprintDatasets"
          (listdir fs_datasets "fingerprintDatasets") <> 0%nat ->
        main plain_float_str fs_datasets (world0 65)
        = (Ret tt,
           after_print
             [String.append newline
                (String.append "Average Precision: " (plain_float_str precision));
              String.append "Average Recall: " (plain_float_str 1%Q);
              String.append "Average F1-Score: " (plain_float_str f1)] w1)).
Proof.
  apply (main_prints_averages plain_float_str fs_datasets (world0 65)).
  reflexivity.
Defined.

(** ** The Hasher against FIPS 180-4 *)

(** *** Operations on words *)

Lemma add32_plus (x y : Z) : SHA256.add32 x y = FIPS180.plus x y.
Proof.
  unfold SHA256.add32, FIPS180.plus, FIPS180.w.
  change SHA256.mask32 with (Z.ones 32).
  apply Z.land_ones. lia.
Qed.

Lemma rotr_ROTR (n x : Z) : 0 <= n <= 32 -> SHA256.rotr n x = FIPS180.ROTR n x.
Proof.
  intros Hn.
  unfold SHA256.rotr, FIPS180.ROTR, FIPS180.shift_right, FIPS180.shift_left, FIPS180.w.
  change SHA256.mask32 with (Z.ones 32).
  rewrite Z.land_ones by lia.
  rewrite Z.shiftr_div_pow2 by lia.
  rewrite Z.shiftl_mul_pow2 by lia.
  reflexivity.
Qed.

Lemma shr_SHR (n x : Z) : 0 <= n -> SHA256.shr n x = FIPS180.SHR n x.
Proof.
  intros Hn. unfold SHA256.shr, FIPS180.SHR, FIPS180.shift_right.
  apply Z.shiftr_div_pow2. exact Hn.
Qed.

Lemma word_high_bits (x : Z) (i : Z) :
  is_word32 x -> 32 <= i -> Z.testbit x i = false.
Proof.
  unfold is_word32. intros Hx Hi.
  destruct (Z.eq_dec x 0) as [->|Hnz]; [apply Z.bits_0|].
  apply Z.bits_above_log2; [lia|].
  assert (Z.log2 x < 32) by (apply Z.log2_lt_pow2; lia). lia.
Qed.

Lemma lxor_mask_complement (x : Z) :
  is_word32 x -> Z.lxor x SHA256.mask32 = FIPS180.complement x.
Proof.
  intros Hx. unfold FIPS180.complement, FIPS180.w.
  change SHA256.mask32 with (Z.ones 32).
  assert (Hdisj : Z.land x (Z.lxor x (Z.ones 32)) = 0).
  { apply Z.bits_inj'. intros i Hi.
    rewrite Z.land_spec, Z.lxor_spec, Z.bits_0.
    destruct (Z.lt_ge_cases i 32) as [Hlt|Hge].
    - rewrite Z.ones_spec_low by lia. destruct (Z.testbit x i); reflexivity.
    - rewrite (word_high_bits x i Hx Hge). reflexivity. }
  pose proof (Z.add_nocarry_lxor _ _ Hdisj) as Hsum.
  rewrite <- Z.lxor_assoc, Z.lxor_nilpotent, Z.lxor_0_l in Hsum.
  rewrite Z.ones_equiv in *. change (2 ^ 32) with 4294967296 in *.
  change (Z.pred 4294967296) with 4294967295 in *. lia.
Qed.

Lemma Ch_eq (x y z : Z) : is_word32 x -> SHA256.Ch x y z = FIPS180.Ch x y z.
Proof.
  intros Hx. unfold SHA256.Ch, FIPS180.Ch.
  rewrite (lxor_mask_complement x Hx). reflexivity.
Qed.

Lemma Maj_eq (x y z : Z) : SHA256.Maj x y z = FIPS180.Maj x y z.
Proof. reflexivity. Qed.

Lemma Sigma0_eq (x : Z) : SHA256.Sigma0 x = FIPS180.Sigma_0 x.
Proof.
  unfold SHA256.Sigma0, FIPS180.Sigma_0. rewrite !rotr_ROTR by lia. reflexivity.
Qed.

Lemma Sigma1_eq (x : Z) : SHA256.Sigma1 x = FIPS180.Sigma_1 x.
Proof.
  unfold SHA256.Sigma1, FIPS180.Sigma_1. rewrite !rotr_ROTR by lia. reflexivity.
Qed.

Lemma sigma0_eq (x : Z) : SHA256.sigma0 x = FIPS180.sigma_0 x.
Proof.
  unfold SHA256.sigma0, FIPS180.sigma_0.
  rewrite !rotr_ROTR, shr_SHR by lia. reflexivity.
Qed.

Lemma sigma1_eq (x : Z) : SHA256.sigma1 x = FIPS180.sigma_1 x.
Proof.
  unfold SHA256.sigma1, FIPS180.sigma_1.
  rewrite !rotr_ROTR, shr_SHR by lia. reflexivity.
Qed.

(** *** Rounds *)

Lemma round_in_range (s : SHA256.regs) (kw : Z * Z) :
  regs_in_range s -> regs_in_range (SHA256.round s kw).
Proof.
  destruct s as [a b c d e f g h], kw as [k x].
  unfold regs_in_range, SHA256.round, SHA256.regs_words.
  cbn [SHA256.ra SHA256.rb SHA256.rc SHA256.rd SHA256.re SHA256.rf SHA256.rg SHA256.rh].
  intros Hs.
  repeat match goal with
         | H : Forall _ (_ :: _) |- _ => inversion H; subst; clear H
         end.
  repeat (apply Forall_cons_2; [first [apply add32_word|assumption]|]).
  apply Forall_nil_2.
Qed.

Lemma round_step (s : SHA256.regs) (k x : Z) :
  regs_in_range s ->
  vars_of_regs (SHA256.round s (k, x)) = FIPS180.step (vars_of_regs s) k x.
Proof.
  destruct s as [a b c d e f g h].
  unfold regs_in_range, SHA256.regs_words.
  cbn [SHA256.ra SHA256.rb SHA256.rc SHA256.rd SHA256.re SHA256.rf SHA256.rg SHA256.rh].
  intros Hs.
  repeat match goal with
         | H : Forall _ (_ :: _) |- _ => inversion H; subst; clear H
         end.
  unfold SHA256.round, FIPS180.step, vars_of_regs.
  cbn [SHA256.ra SHA256.rb SHA256.rc SHA256.rd SHA256.re SHA256.rf SHA256.rg SHA256.rh
       FIPS180.a FIPS180.b FIPS180.c FIPS180.d FIPS180.e FIPS180.f FIPS180.g FIPS180.h].
  rewrite !add32_plus, Sigma1_eq, Sigma0_eq, Maj_eq.
  rewrite (Ch_eq e f g) by assumption.
  reflexivity.
Qed.

Lemma firstn_snoc {A : Type} (l : list A) (d : A) :
  forall t : nat,
    (t < length l)%nat -> firstn (S t) l = firstn t l ++ [nth t l d].
Proof.
  induction l as [|x l IH]; intros t Ht; cbn [length] in Ht; [lia|].
  destruct t as [|t]; [reflexivity|].
  cbn [firstn nth app]. f_equal. apply IH. lia.
Qed.

Lemma K_length : length SHA256.K = 64%nat.
Proof. vm_compute. reflexivity. Qed.

Lemma rounds_fold (ws : list Z) (h0 : SHA256.regs) :
  length ws = 64%nat -> regs_in_range h0 ->
  forall t : nat,
    (t <= 64)%nat ->
    regs_in_range (fold_left SHA256.round (firstn t (combine SHA256.K ws)) h0)
    /\ vars_of_regs (fold_left SHA256.round (firstn t (combine SHA256.K ws)) h0)
       = FIPS180.after_rounds (fun i => nth i ws 0) t (vars_of_regs h0).
Proof.
  intros Hws Hh0.
  induction t as [|t IH]; intros Ht.
  - split; [exact Hh0|reflexivity].
  - destruct (IH ltac:(lia)) as [Hrange Hvars].
    rewrite (firstn_snoc (combine SHA256.K ws) (0, 0) t)
      by (rewrite length_combine, K_length, Hws; lia).
    rewrite fold_left_app. cbn [fold_left].
    rewrite combine_nth by (rewrite K_length, Hws; reflexivity).
    split; [apply round_in_range, Hrange|].
    rewrite (round_step _ _ _ Hrange), Hvars.
    cbn [FIPS180.after_rounds]. unfold FIPS180.K. reflexivity.
Qed.

(** *** The message schedule *)

Lemma schedule_upto_length (M : nat -> Z) (n : nat) :
  length (FIPS180.schedule_upto M n) = n.
Proof.
  induction n as [|n IH]; [reflexivity|].
  cbn [FIPS180.schedule_upto length]. rewrite IH. reflexivity.
Qed.

Lemma schedule_upto_first (M : nat -> Z) (n : nat) :
  (n <= 16)%nat -> rev (FIPS180.schedule_upto M n) = map M (seq 0 n).
Proof.
  induction n as [|n IH]; intros Hn; [reflexivity|].
  cbn [FIPS180.schedule_upto rev].
  destruct (Nat.ltb_spec n 16); [|lia].
  rewrite IH by lia. rewrite seq_S, map_app. reflexivity.
Qed.

Lemma map_nth_seq {A : Type} (l : list A) (d : A) :
  map (fun j => nth j l d) (seq 0 (length l)) = l.
Proof.
  apply (nth_ext _ _ d d).
  - rewrite length_map, length_seq. reflexivity.
  - intros n Hn. rewrite length_map, length_seq in Hn.
    rewrite (nth_indep _ d (nth 0 l d)) by (rewrite length_map, length_seq; exact Hn).
    rewrite (map_nth (fun j => nth j l d) (seq 0 (length l)) 0%nat n).
    rewrite seq_nth by exact Hn. reflexivity.
Qed.

Lemma extend_schedule (M : nat -> Z) :
  forall (k t : nat) (ws : list Z),
    (16 <= t)%nat ->
    ws = rev (FIPS180.schedule_upto M t) ->
    SHA256.extend k ws = rev (FIPS180.schedule_upto M (t + k)).
Proof.
  induction k as [|k IH]; intros t ws Ht Hws.
  - rewrite Nat.add_0_r. exact Hws.
  - cbn [SHA256.extend].
    replace (t + S k)%nat with (S t + k)%nat by lia.
    apply IH; [lia|].
    assert (Hlen : length ws = t)
      by (rewrite Hws, length_rev; apply schedule_upto_length).
    cbn [FIPS180.schedule_upto rev].
    destruct (Nat.ltb_spec t 16); [lia|].
    rewrite <- Hws. f_equal. f_equal.
    rewrite Hlen, !add32_plus, sigma1_eq, sigma0_eq.
    assert (Hnth : forall i : nat,
               (i < 16)%nat ->
               nth (t - S i) ws 0 = nth i (FIPS180.schedule_upto M t) 0).
    { intros i Hi. rewrite Hws.
      rewrite rev_nth by (rewrite schedule_upto_length; lia).
      rewrite schedule_upto_length. f_equal. lia. }
    rewrite (Hnth 1%nat), (Hnth 6%nat), (Hnth 14%nat), (Hnth 15%nat) by lia.
    reflexivity.
Qed.

Lemma schedule_spec (block : list Z) :
  length block = 16%nat ->
  SHA256.schedule block
  = rev (FIPS180.schedule_upto (fun j => nth j block 0) 64).
Proof.
  intros Hlen. unfold SHA256.schedule.
  apply (extend_schedule _ 48 16); [lia|].
  rewrite schedule_upto_first by lia.
  rewrite <- Hlen. symmetry. apply map_nth_seq.
Qed.

Lemma schedule_upto_ext (M M' : nat -> Z) :
  (forall j : nat, (j < 16)%nat -> M j = M' j) ->
  forall n : nat, FIPS180.schedule_upto M n = FIPS180.schedule_upto M' n.
Proof.
  intros Hext. induction n as [|n IH]; [reflexivity|].
  cbn [FIPS180.schedule_upto]. rewrite IH.
  destruct (Nat.ltb_spec n 16); [rewrite Hext by assumption|]; reflexivity.
Qed.

Lemma after_rounds_ext (Wt Wt' : nat -> Z) (v : FIPS180.vars) :
  forall t : nat,
    (forall i : nat, (i < t)%nat -> Wt i = Wt' i) ->
    FIPS180.after_rounds Wt t v = FIPS180.after_rounds Wt' t v.
Proof.
  induction t as [|t IH]; intros Hext; [reflexivity|].
  cbn [FIPS180.after_rounds]. rewrite IH by (intros i Hi; apply Hext; lia).
  rewrite Hext by lia. reflexivity.
Qed.

(** *** One block *)

Lemma plus_comm (x y : Z) : FIPS180.plus x y = FIPS180.plus y x.
Proof. unfold FIPS180.plus. rewrite Z.add_comm. reflexivity. Qed.

Lemma compress_next_hash (h0 : SHA256.regs) (block : list Z) (M : nat -> Z) :
  regs_in_range h0 -> length block = 16%nat ->
  (forall j : nat, (j < 16)%nat -> nth j block 0 = M j) ->
  vars_of_regs (SHA256.compress h0 block)
  = FIPS180.next_hash (vars_of_regs h0) (FIPS180.W M).
Proof.
  intros Hh0 Hlen HM.
  assert (Hsched : SHA256.schedule block = rev (FIPS180.schedule_upto M 64)).
  { rewrite (schedule_spec block Hlen). f_equal.
    apply schedule_upto_ext. exact HM. }
  assert (Hslen : length (SHA256.schedule block) = 64%nat)
    by (rewrite Hsched, length_rev; apply schedule_upto_length).
  destruct (rounds_fold (SHA256.schedule block) h0 Hslen Hh0 64 ltac:(lia))
    as [_ Hvars].
  rewrite firstn_all2 in Hvars by (rewrite length_combine, K_length, Hslen; lia).
  unfold SHA256.compress, FIPS180.next_hash.
  assert (Hrounds : FIPS180.after_rounds (FIPS180.W M) 64 (vars_of_regs h0)
                    = vars_of_regs
                        (fold_left SHA256.round
                           (combine SHA256.K (SHA256.schedule block)) h0)).
  { rewrite Hvars. apply after_rounds_ext. intros i _.
    unfold FIPS180.W. rewrite Hsched. reflexivity. }
  rewrite Hrounds.
  unfold vars_of_regs.
  cbn [SHA256.ra SHA256.rb SHA256.rc SHA256.rd SHA256.re SHA256.rf SHA256.rg SHA256.rh
       FIPS180.a FIPS180.b FIPS180.c FIPS180.d FIPS180.e FIPS180.f FIPS180.g FIPS180.h].
  rewrite !add32_plus.
  f_equal; apply plus_comm.
Qed.

(** *** Parsing the padded message *)

Lemma lor_low (hi lo k : Z) :
  0 <= k -> 0 <= lo < 2 ^ k -> Z.lor (hi * 2 ^ k) lo = hi * 2 ^ k + lo.
Proof.
  intros Hk Hlo.
  assert (Hdisj : Z.land (hi * 2 ^ k) lo = 0).
  { apply Z.bits_inj'. intros i Hi.
    rewrite Z.land_spec, Z.bits_0.
    destruct (Z.lt_ge_cases i k) as [Hlt|Hge].
    - rewrite Z.mul_pow2_bits_low by lia. reflexivity.
    - assert (Hbit : Z.testbit lo i = false).
      { destruct (Z.eq_dec lo 0) as [->|Hnz]; [apply Z.bits_0|].
        apply Z.bits_above_log2; [lia|].
        assert (Z.log2 lo < k) by (apply Z.log2_lt_pow2; lia). lia. }
      rewrite Hbit. apply andb_false_r. }
  rewrite <- (Z.lxor_lor _ _ Hdisj). symmetry.
  apply Z.add_nocarry_lxor. exact Hdisj.
Qed.

Lemma word_of_bytes (b0 b1 b2 b3 : Z) :
  is_byte_value b1 -> is_byte_value b2 -> is_byte_value b3 ->
  Z.lor (Z.lor (Z.lor (Z.shiftl b0 24) (Z.shiftl b1 16)) (Z.shiftl b2 8)) b3
  = b0 * 2 ^ 24 + b1 * 2 ^ 16 + b2 * 2 ^ 8 + b3.
Proof.
  unfold is_byte_value. intros H1 H2 H3.
  rewrite !Z.shiftl_mul_pow2 by lia.
  rewrite (lor_low b0 (b1 * 2 ^ 16) 24) by lia.
  replace (b0 * 2 ^ 24 + b1 * 2 ^ 16) with ((b0 * 2 ^ 8 + b1) * 2 ^ 16) by lia.
  rewrite (lor_low _ (b2 * 2 ^ 8) 16) by lia.
  replace ((b0 * 2 ^ 8 + b1) * 2 ^ 16 + b2 * 2 ^ 8)
    with (((b0 * 2 ^ 8 + b1) * 2 ^ 8 + b2) * 2 ^ 8) by lia.
  rewrite (lor_low _ b3 8) by lia.
  lia.
Qed.

Lemma words_of_nth (k : nat) :
  forall l : list Z,
    Forall is_byte_value l ->
    (4 * k + 3 < length l)%nat ->
    nth k (SHA256.words_of l) 0
    = nth (4 * k) l 0 * 2 ^ 24 + nth (4 * k + 1) l 0 * 2 ^ 16
      + nth (4 * k + 2) l 0 * 2 ^ 8 + nth (4 * k + 3) l 0.
Proof.
  induction k as [|k IH]; intros l Hl Hlen;
    destruct l as [|b0 [|b1 [|b2 [|b3 rest]]]]; cbn [length] in Hlen; try lia.
  - cbn [SHA256.words_of nth Nat.mul Nat.add].
    inversion Hl as [|? ? _ Hl1]; subst. inversion Hl1 as [|? ? H1 Hl2]; subst.
    inversion Hl2 as [|? ? H2 Hl3]; subst. inversion Hl3 as [|? ? H3 _]; subst.
    apply word_of_bytes; assumption.
  - cbn [SHA256.words_of nth].
    replace (4 * S k)%nat with (S (S (S (S (4 * k))))) by lia.
    cbn [nth Nat.add].
    apply IH; [|lia].
    inversion Hl as [|? ? _ Hl1]; subst. inversion Hl1 as [|? ? _ Hl2]; subst.
    inversion Hl2 as [|? ? _ Hl3]; subst. inversion Hl3 as [|? ? _ Hl4]; subst.
    exact Hl4.
Qed.

Lemma words_of_length (n : nat) :
  forall l : list Z,
    (length l <= n)%nat -> (4 * length (SHA256.words_of l) + 3 >= length l)%nat
                           /\ (4 * length (SHA256.words_of l) <= length l)%nat.
Proof.
  induction n as [|n IH]; intros l Hn;
    destruct l as [|b0 [|b1 [|b2 [|b3 rest]]]];
    cbn [SHA256.words_of length] in *; try lia.
  destruct (IH rest ltac:(lia)). lia.
Qed.

Lemma blocks_length (n : nat) : forall l, length (SHA256.blocks n l) = n.
Proof.
  induction n as [|n IH]; intros l; [reflexivity|].
  cbn [SHA256.blocks length]. rewrite IH. reflexivity.
Qed.

Lemma blocks_nth (n : nat) :
  forall (l : list Z) (i : nat),
    (i < n)%nat ->
    nth i (SHA256.blocks n l) [] = firstn 16 (skipn (16 * i) l).
Proof.
  induction n as [|n IH]; intros l i Hi; [lia|].
  cbn [SHA256.blocks]. destruct i as [|i]; [reflexivity|].
  cbn [nth]. rewrite IH by lia. rewrite skipn_skipn.
  f_equal. f_equal. lia.
Qed.

(** Block [i] of the words of [P] holds the sixteen words the standard
    numbers [block_word P i 0], ..., [block_word P i 15]. *)
Lemma block_words (P : list Z) (i : nat) :
  Forall is_byte_value P ->
  (i < length P / 64)%nat ->
  let block := nth i (SHA256.blocks (length P / 64) (SHA256.words_of P)) [] in
  length block = 16%nat
  /\ forall j : nat, (j < 16)%nat -> nth j block 0 = FIPS180.block_word P i j.
Proof.
  intros HP Hi block.
  assert (Hdiv : (64 * (length P / 64) <= length P)%nat)
    by (apply Nat.Div0.mul_div_le).
  destruct (words_of_length (length P) P (le_n _)) as [Hw1 Hw2].
  unfold block. rewrite blocks_nth by exact Hi. split.
  - rewrite length_firstn, length_skipn. lia.
  - intros j Hj.
    rewrite nth_firstn. destruct (Nat.ltb_spec j 16); [|lia].
    rewrite nth_skipn.
    rewrite words_of_nth by (try exact HP; lia).
    unfold FIPS180.block_word.
    replace (4 * (16 * i + j))%nat with (64 * i + 4 * j)%nat by lia.
    reflexivity.
Qed.

(** *** Chaining the blocks *)

Lemma H0_initial : vars_of_regs SHA256.H0 = FIPS180.H_initial.
Proof. vm_compute. reflexivity. Qed.

Lemma chain_blocks (P : list Z) :
  Forall is_byte_value P ->
  forall i : nat,
    (i <= length P / 64)%nat ->
    regs_in_range
      (fold_left SHA256.compress
         (firstn i (SHA256.blocks (length P / 64) (SHA256.words_of P))) SHA256.H0)
    /\ vars_of_regs
         (fold_left SHA256.compress
            (firstn i (SHA256.blocks (length P / 64) (SHA256.words_of P))) SHA256.H0)
       = FIPS180.H P i.
Proof.
  intros HP. induction i as [|i IH]; intros Hi.
  - split; [apply H0_in_range|apply H0_initial].
  - destruct (IH ltac:(lia)) as [Hrange Hvars].
    rewrite (firstn_snoc _ [] i) by (rewrite blocks_length; lia).
    rewrite fold_left_app. cbn [fold_left].
    split; [apply compress_in_range|].
    destruct (block_words P i HP ltac:(lia)) as [Hlen Hwords].
    rewrite (compress_next_hash _ _ (FIPS180.block_word P i) Hrange Hlen Hwords).
    rewrite Hvars. reflexivity.
Qed.

(** *** Padding *)

Lemma byte_at (x : Z) (i : nat) :
  Z.land (Z.shiftr x (8 * Z.of_nat i)) 0xff = (x / 256 ^ Z.of_nat i) mod 256.
Proof.
  rewrite Z.shiftr_div_pow2 by lia.
  change 0xff with (Z.ones 8). rewrite Z.land_ones by lia.
  rewrite Z.pow_mul_r by lia. reflexivity.
Qed.

Lemma be_bytes_8 (x : Z) : SHA256.be_bytes 8 x = FIPS180.big_endian 8 x.
Proof.
  unfold SHA256.be_bytes, FIPS180.big_endian.
  cbn [seq rev app map Nat.sub]. rewrite !byte_at. reflexivity.
Qed.

Lemma be_bytes_4 (x : Z) : SHA256.be_bytes 4 x = FIPS180.big_endian 4 x.
Proof.
  unfold SHA256.be_bytes, FIPS180.big_endian.
  cbn [seq rev app map Nat.sub]. rewrite !byte_at. reflexivity.
Qed.

Lemma big_endian_bytes (n : nat) (x : Z) :
  Forall is_byte_value (FIPS180.big_endian n x).
Proof.
  unfold FIPS180.big_endian. apply List.Forall_forall. intros y Hy.
  apply in_map_iff in Hy as [i [<- _]].
  unfold is_byte_value. apply Z.mod_pos_bound. lia.
Qed.

Lemma least_solution_ext (holds holds' : Z -> bool) :
  (forall k, holds k = holds' k) ->
  forall (fuel : nat) (k : Z),
    FIPS180.least_solution fuel holds k = FIPS180.least_solution fuel holds' k.
Proof.
  intros Hext. induction fuel as [|fuel IH]; intros k; [reflexivity|].
  cbn [FIPS180.least_solution]. rewrite Hext, IH. reflexivity.
Qed.

Lemma zero_bits_small (r : nat) :
  (r < 64)%nat ->
  FIPS180.zero_bits (8 * Z.of_nat r) = 8 * ((55 - Z.of_nat r) mod 64) + 7.
Proof.
  intros Hr.
  do 64 (destruct r as [|r]; [vm_compute; reflexivity|]).
  lia.
Qed.

Lemma zero_bits_bytes (n : nat) :
  FIPS180.zero_bits (8 * Z.of_nat n) = 8 * ((55 - Z.of_nat n) mod 64) + 7.
Proof.
  pose proof (Nat.div_mod_eq n 64) as Hn.
  pose proof (Nat.mod_upper_bound n 64 ltac:(lia)) as Hr.
  set (q := (n / 64)%nat) in *. set (r := (n mod 64)%nat) in *.
  assert (HZ : Z.of_nat n = Z.of_nat r + Z.of_nat q * 64) by lia.
  transitivity (FIPS180.zero_bits (8 * Z.of_nat r)).
  - unfold FIPS180.zero_bits. apply least_solution_ext. intros k.
    f_equal. rewrite HZ.
    replace (8 * (Z.of_nat r + Z.of_nat q * 64) + 1 + k)
      with (8 * Z.of_nat r + 1 + k + Z.of_nat q * 512) by lia.
    apply Z_mod_plus_full.
  - rewrite (zero_bits_small r Hr). f_equal. f_equal.
    rewrite HZ.
    replace (55 - (Z.of_nat r + Z.of_nat q * 64))
      with (55 - Z.of_nat r + (- Z.of_nat q) * 64) by lia.
    symmetry. apply Z_mod_plus_full.
Qed.

Lemma pad_padded (message : list Z) : SHA256.pad message = FIPS180.padded message.
Proof.
  unfold SHA256.pad, FIPS180.padded. cbv zeta.
  rewrite be_bytes_8, zero_bits_bytes.
  replace ((8 * ((55 - Z.of_nat (length message)) mod 64) + 7 - 7) / 8)
    with ((55 - Z.of_nat (length message)) mod 64).
  - reflexivity.
  - replace (8 * ((55 - Z.of_nat (length message)) mod 64) + 7 - 7)
      with (((55 - Z.of_nat (length message)) mod 64) * 8) by lia.
    symmetry. apply Z_div_mult. lia.
Qed.

Lemma message_bytes (data : bytes) : Forall is_byte_value (map byte_to_Z data).
Proof.
  apply List.Forall_forall. intros y Hy.
  apply in_map_iff in Hy as [b [<- _]].
  unfold is_byte_value, byte_to_Z.
  pose proof (Byte.to_N_bounded b). lia.
Qed.

Lemma padded_bytes (data : bytes) :
  Forall is_byte_value (FIPS180.padded (map byte_to_Z data)).
Proof.
  unfold FIPS180.padded. cbv zeta.
  apply Forall_app_2; [apply message_bytes|].
  apply Forall_app_2; [apply Forall_cons_2; [unfold is_byte_value; lia|apply Forall_nil_2]|].
  apply Forall_app_2; [|apply big_endian_bytes].
  apply List.Forall_forall. intros y Hy.
  apply repeat_spec in Hy. subst y. unfold is_byte_value. lia.
Qed.

(** *** The chaining value of a message *)

Lemma hash_regs_spec (data : bytes) :
  vars_of_regs (SHA256.hash_regs data) = FIPS180.SHA256 data.
Proof.
  unfold SHA256.hash_regs, FIPS180.SHA256. cbv zeta.
  rewrite pad_padded.
  pose proof (padded_bytes data) as HP.
  generalize dependent (FIPS180.padded (map byte_to_Z data)). intros P HP.
  destruct (chain_blocks P HP (length P / 64) (le_n _)) as [_ Hvars].
  rewrite firstn_all2 in Hvars by (rewrite blocks_length; lia).
  exact Hvars.
Qed.

(** *** The hexadecimal rendering *)

Lemma hex_pair (b : byte) :
  SHA256.hexchar (Byte.to_N b / 16) = FIPS180.hex_digit (byte_to_Z b / 16)
  /\ SHA256.hexchar (Byte.to_N b mod 16) = FIPS180.hex_digit (byte_to_Z b mod 16).
Proof. destruct b; split; reflexivity. Qed.

Lemma hex_render (zs : list Z) :
  Forall is_byte_value zs ->
  SHA256.hex (map byte_of_Z zs)
  = string_of_list_ascii
      (flat_map (fun x => [FIPS180.hex_digit (x / 16); FIPS180.hex_digit (x mod 16)]) zs).
Proof.
  induction 1 as [|x zs Hx _ IH]; [reflexivity|].
  cbn [map SHA256.hex flat_map app string_of_list_ascii].
  rewrite IH.
  destruct (hex_pair (byte_of_Z x)) as [Hhi Hlo].
  rewrite (byte_of_Z_value x Hx) in Hhi, Hlo.
  rewrite Hhi, Hlo. reflexivity.
Qed.

Lemma flat_map_big_endian_bytes (n : nat) (xs : list Z) :
  Forall is_byte_value (flat_map (FIPS180.big_endian n) xs).
Proof.
  induction xs as [|x xs IH]; cbn [flat_map]; [apply Forall_nil_2|].
  apply Forall_app_2; [apply big_endian_bytes|exact IH].
Qed.

Lemma hexdigest_spec (data : bytes) :
  generate_sha256_hash data = FIPS180.hexdigest data.
Proof.
  rewrite hash_of_regs.
  unfold FIPS180.hexdigest, FIPS180.digest. cbv zeta.
  rewrite <- hash_regs_spec.
  generalize (SHA256.hash_regs data). intros s.
  unfold SHA256.digest_of_regs.
  rewrite (flat_map_ext _ _ be_bytes_4).
  rewrite hex_render by apply flat_map_big_endian_bytes.
  destruct s. reflexivity.
Qed.

Example fips_abc :
  FIPS180.hexdigest (bytes_of_string "abc")
  = "ba7816bf8f01cfea414140de5dae2223b00361a396177a9cb410ff61f20015ad"%string.
Proof. vm_compute. reflexivity. Qed.

(** C3: for every byte sequence, the empty one included, the Hasher
    returns the SHA-256 digest of that sequence as FIPS 180-4 defines it
    (padding, parsing into blocks, message schedule, 64 rounds, chaining),
    written as 64 lowercase hexadecimal digits; it is a function of the
    bytes alone, and on the empty message, on [abc] and on the 56-byte
    message of the standard's examples it gives the published digests. *)
Theorem C3_hasher_output :
  forall data : bytes,
    generate_sha256_hash data = FIPS180.hexdigest data
    /\ (forall data' : bytes, data' = data ->
          generate_sha256_hash data' = generate_sha256_hash data)
    /\ generate_sha256_hash data = SHA256.hex (SHA256.digest data)
    /\ length (SHA256.digest data) = 32%nat
    /\ String.length (generate_sha256_hash data) = 64%nat
    /\ forallb is_lower_hex (list_ascii_of_string (generate_sha256_hash data)) = true
    /\ generate_sha256_hash []
       = "e3b0c44298fc1c149afbf4c8996fb92427ae41e4649b934ca495991b7852b855"%string
    /\ generate_sha256_hash (bytes_of_string "abc")
       = "ba7816bf8f01cfea414140de5dae2223b00361a396177a9cb410ff61f20015ad"%string
    /\ generate_sha256_hash
         (bytes_of_string "abcdbcdecdefdefgefghfghighijhijkijkljklmklmnlmnomnopnopq")
       = "248d6a61d20638b8e5c026930c3e6039a33ce45964ff2167f6ecedd419db06c1"%string.
Proof.
  intros data.
  split; [apply hexdigest_spec|].
  unfold generate_sha256_hash, SHA256.hexdigest.
  assert (Hlen : forall d, String.length (SHA256.hex (SHA256.digest d)) = 64%nat).
  { intros d. rewrite hex_length. unfold SHA256.digest.
    rewrite digest_of_regs_length. reflexivity. }
  split; [intros data' ->; reflexivity|].
  split; [reflexivity|].
  split; [apply digest_of_regs_length|].
  split; [apply Hlen|].
  split; [apply hex_lower|].
  split; [apply sha256_empty|].
  split; [apply sha256_abc|apply sha256_two_blocks].
Qed.

(** *** Two messages of 33 bytes with one digest *)

Lemma number_bytes_length (n : nat) : forall k, length (number_bytes n k) = n.
Proof.
  induction n as [|n IH]; intros k; [reflexivity|].
  cbn [number_bytes length]. rewrite IH. reflexivity.
Qed.

Lemma bytes_number_bytes (n : nat) :
  forall k : Z, bytes_number (number_bytes n k) = k mod 256 ^ Z.of_nat n.
Proof.
  induction n as [|n IH]; intros k.
  - cbn [number_bytes bytes_number]. change (256 ^ Z.of_nat 0) with 1.
    rewrite Z.mod_1_r. reflexivity.
  - cbn [number_bytes bytes_number].
    rewrite IH, byte_of_Z_value by (apply Z.mod_pos_bound; lia).
    rewrite Nat2Z.inj_succ, Z.pow_succ_r by lia.
    symmetry. apply Z.rem_mul_r; lia.
Qed.

Lemma sha256_collision_33_bytes :
  exists a b : bytes,
    length a = 33%nat /\ length b = 33%nat /\ a <> b
    /\ generate_sha256_hash a = generate_sha256_hash b.
Proof.
  destruct (pigeonhole_N (2 ^ 256)%N
              (fun k => regs_number
                          (SHA256.hash_regs (number_bytes 33 (Z.of_N k)))))
    as [m [n [Hmn [Hn Heq]]]].
  - intros k _. change (Z.of_N (2 ^ 256)) with (2 ^ 256).
    apply regs_number_bound, hash_regs_in_range.
  - exists (number_bytes 33 (Z.of_N m)), (number_bytes 33 (Z.of_N n)).
    split; [apply number_bytes_length|]. split; [apply number_bytes_length|].
    split.
    + intros Hsame. apply (f_equal bytes_number) in Hsame.
      rewrite !bytes_number_bytes in Hsame.
      assert (Hbig : Z.of_N (2 ^ 256) < 256 ^ Z.of_nat 33) by (vm_compute; reflexivity).
      rewrite !Z.mod_small in Hsame by lia. lia.
    + rewrite !hash_of_regs.
      apply regs_number_inj in Heq; try apply hash_regs_in_range.
      rewrite Heq. reflexivity.
Qed.

(** C7, as stated, fails: the Hasher is not injective on byte sequences,
    and not even on the byte sequences of 33 bytes, of which there are
    more than there are digests. *)
Lemma C7_hasher_not_injective :
  ~ (forall a b : bytes,
       generate_sha256_hash a = generate_sha256_hash b <-> a = b)
  /\ exists a b : bytes,
       length a = 33%nat /\ length b = 33%nat /\ a <> b
       /\ generate_sha256_hash a = generate_sha256_hash b.
Proof.
  split; [|apply sha256_collision_33_bytes].
  intros Hinj.
  destruct sha256_collision_33_bytes as [a [b [_ [_ [Hne Heq]]]]].
  apply Hne, Hinj, Heq.
Qed.

(** C7, amended: bit-identical byte sequences have equal digests, and two
    digests are equal exactly when the 32-byte SHA-256 values they render
    are equal; equal digests do not make the byte sequences identical:
    there are two distinct sequences of 33 bytes with the same digest, the
    digest taking at most 2^256 values. *)
Theorem C7_hasher_digest_equality :
  (forall a b : bytes, a = b -> generate_sha256_hash a = generate_sha256_hash b)
  /\ (forall a b : bytes,
        generate_sha256_hash a = generate_sha256_hash b
        <-> SHA256.digest a = SHA256.digest b)
  /\ (forall a : bytes, 0 <= regs_number (SHA256.hash_regs a) < 2 ^ 256)
  /\ (exists a b : bytes,
        length a = 33%nat /\ length b = 33%nat /\ a <> b
        /\ generate_sha256_hash a = generate_sha256_hash b).
Proof.
  split; [intros a b ->; reflexivity|].
  split.
  - intros a b. unfold generate_sha256_hash, SHA256.hexdigest. split.
    + intros H. apply (f_equal unhex) in H. rewrite !unhex_hex in H. exact H.
    + intros H. rewrite H. reflexivity.
  - split; [intros a; apply regs_number_bound, hash_regs_in_range|].
    apply sha256_collision_33_bytes.
Qed.
